(** * cifscloak: encrypted cifstab and the mount retry loop

    A shallow embedding of [cifscloak.py] (class [Cifscloak] and the
    command line entry point) and the properties of its specification.

    Python values are modelled as follows.
    - [str] is a list of Unicode code points ([pystr]); the literals of
      the program are written [str "..."].
    - [bytes] is a list of [byte].
    - [int] is [Z]; [None] where an [int] may be absent is [option].
    - the [status] dict is a record with one field per key; its
      ['attempts'] dict is a [gmap] from names to [Z].
    - the SQLite table [cifstab] is the list of its rows.
    - everything the process does to the outside (syslog, stdout, stderr,
      commands run, sleeps, directories made) is appended to a trace of
      events; what the outside answers (exit code and output of a command,
      presence of a path, typed password, random bytes) is read from an
      environment that may depend on the whole trace so far.
    - an uncaught exception is the [Raise] outcome of the monad [M]. *)

From Stdlib Require Import ZArith NArith List Bool Lia DecimalString.
From Stdlib.Strings Require Import String Ascii Byte.
From stdpp Require Import base option list gmap.
Import ListNotations.

Local Open Scope Z_scope.
Local Open Scope list_scope.

(** ** Python strings and bytes *)

Definition pystr := list N.

Definition str (s : string) : pystr :=
  List.map N_of_ascii (list_ascii_of_string s).

(** [str(n)] for an [int]. *)
Definition str_of_int (n : Z) : pystr :=
  str (NilZero.string_of_int (Z.to_int n)).

Definition pystr_eqb (a b : pystr) : bool := bool_decide (a = b).

(** [x in l] for a list of strings. *)
Definition str_in (x : pystr) (l : list pystr) : bool := bool_decide (x ∈ l).

(** [list(dict.fromkeys(names))]: the keys of a dict keep the order of
    their first insertion. *)
Fixpoint fromkeys_acc (seen : list pystr) (names : list pystr) : list pystr :=
  match names with
  | [] => []
  | n :: rest =>
      if str_in n seen then fromkeys_acc seen rest
      else n :: fromkeys_acc (seen ++ [n]) rest
  end.

Definition dict_fromkeys (names : list pystr) : list pystr :=
  fromkeys_acc [] names.


(** *** The UTF-8 codec ([bytes(s, encoding='utf-8')], [b.decode('utf-8')]) *)

Definition mkbyte (n : N) : byte :=
  match Byte.of_N n with Some b => b | None => x00 end.

Definition is_surrogate (c : N) : bool :=
  ((0xD800 <=? c) && (c <=? 0xDFFF))%N.

Definition utf8_encode_cp (c : N) : option (list byte) :=
  (if c <? 0x80 then Some [mkbyte c]
   else if c <? 0x800 then
     Some [mkbyte (0xC0 + c / 64); mkbyte (0x80 + c mod 64)]
   else if c <? 0x10000 then
     if is_surrogate c then None
     else Some [mkbyte (0xE0 + c / 4096); mkbyte (0x80 + (c / 64) mod 64);
                mkbyte (0x80 + c mod 64)]
   else if c <? 0x110000 then
     Some [mkbyte (0xF0 + c / 262144); mkbyte (0x80 + (c / 4096) mod 64);
           mkbyte (0x80 + (c / 64) mod 64); mkbyte (0x80 + c mod 64)]
   else None)%N.

(** [None] is [UnicodeEncodeError]. *)
Fixpoint utf8_encode (v : pystr) : option (list byte) :=
  match v with
  | [] => Some []
  | c :: rest =>
      match utf8_encode_cp c, utf8_encode rest with
      | Some a, Some b => Some (a ++ b)
      | _, _ => None
      end
  end.

Definition is_cont (b : byte) : bool :=
  ((0x80 <=? Byte.to_N b) && (Byte.to_N b <? 0xC0))%N.

Definition contbits (b : byte) : N := (Byte.to_N b - 0x80)%N.

(** The strict decoder: overlong forms, surrogates and values above
    U+10FFFF are refused. [None] is [UnicodeDecodeError]. *)
Fixpoint utf8_decode (bs : list byte) : option pystr :=
  match bs with
  | [] => Some []
  | b0 :: r0 =>
      let n0 := Byte.to_N b0 in
      if (n0 <? 0x80)%N then
        match utf8_decode r0 with Some v => Some (n0 :: v) | None => None end
      else if (n0 <? 0xC0)%N then None
      else if (n0 <? 0xE0)%N then
        match r0 with
        | b1 :: r1 =>
            let c := ((n0 - 0xC0) * 64 + contbits b1)%N in
            if is_cont b1 && (0x80 <=? c)%N then
              match utf8_decode r1 with Some v => Some (c :: v) | None => None end
            else None
        | _ => None
        end
      else if (n0 <? 0xF0)%N then
        match r0 with
        | b1 :: b2 :: r2 =>
            let c := ((n0 - 0xE0) * 4096 + contbits b1 * 64 + contbits b2)%N in
            if is_cont b1 && is_cont b2 && (0x800 <=? c)%N
               && negb (is_surrogate c) then
              match utf8_decode r2 with Some v => Some (c :: v) | None => None end
            else None
        | _ => None
        end
      else if (n0 <? 0xF8)%N then
        match r0 with
        | b1 :: b2 :: b3 :: r3 =>
            let c := ((n0 - 0xF0) * 262144 + contbits b1 * 4096
                      + contbits b2 * 64 + contbits b3)%N in
            if is_cont b1 && is_cont b2 && is_cont b3
               && (0x10000 <=? c)%N && (c <? 0x110000)%N then
              match utf8_decode r3 with Some v => Some (c :: v) | None => None end
            else None
        | _ => None
        end
      else None
  end.

(** ** The regular expression of [execute]

    [regex.search(r'(?|error\((\d+)\)|.+:.+:\s{1}(.+))', stderr)]: a
    backtracking matcher for the fragment the pattern uses. A pattern is
    a sequence of atoms; [Plus] is the greedy [+], which first takes the
    longest run and gives characters back one at a time; in the branch
    reset group [(?|...)] both alternatives capture into group 1. *)

Inductive atom :=
| Lit (c : N)
| One (cls : N -> bool)
| Plus (cls : N -> bool) (group1 : bool).

Fixpoint run_length (cls : N -> bool) (s : pystr) : nat :=
  match s with
  | c :: s' => if cls c then S (run_length cls s') else O
  | [] => O
  end.

(** [match_here p s g]: match [p] at the start of [s]; [g] is group 1 so
    far. [None] is no match, [Some g'] a match whose group 1 is [g']. *)
Fixpoint match_here (p : list atom) (s : pystr) (g : option pystr)
  : option (option pystr) :=
  match p with
  | [] => Some g
  | Lit c :: p' =>
      match s with
      | x :: s' => if (x =? c)%N then match_here p' s' g else None
      | [] => None
      end
  | One cls :: p' =>
      match s with
      | x :: s' => if cls x then match_here p' s' g else None
      | [] => None
      end
  | Plus cls group1 :: p' =>
      (fix give_back (k : nat) : option (option pystr) :=
         match k with
         | O => None
         | S k' =>
             match match_here p' (drop k s)
                     (if group1 then Some (take k s) else g) with
             | Some r => Some r
             | None => give_back k'
             end
         end) (run_length cls s)
  end.

Fixpoint match_alternatives (alts : list (list atom)) (s : pystr)
  : option (option pystr) :=
  match alts with
  | [] => None
  | p :: alts' =>
      match match_here p s None with
      | Some r => Some r
      | None => match_alternatives alts' s
      end
  end.

(** [regex.search(pattern, s)] followed by [.group(1)] when there is a
    match: the leftmost position at which an alternative matches. The outer
    [None] is the [None] that [search] returns. *)
Fixpoint regex_search (alts : list (list atom)) (s : pystr)
  : option (option pystr) :=
  match match_alternatives alts s with
  | Some r => Some r
  | None =>
      match s with
      | [] => None
      | _ :: s' => regex_search alts s'
      end
  end.

(** [\d] on the text that mount and umount write: the digits 0 to 9 (the
    decimal digits of other scripts are not listed). *)
Definition is_digit (c : N) : bool := ((48 <=? c) && (c <=? 57))%N.

(** [.] without DOTALL: anything but a line feed. *)
Definition is_dot (c : N) : bool := negb (c =? 10)%N.

(** [\s]: the code points with the White_Space property. *)
Definition is_space (c : N) : bool :=
  (((9 <=? c) && (c <=? 13)) || (c =? 32) || (c =? 0x85) || (c =? 0xA0)
   || (c =? 0x1680) || ((0x2000 <=? c) && (c <=? 0x200A))
   || (c =? 0x2028) || (c =? 0x2029) || (c =? 0x202F) || (c =? 0x205F)
   || (c =? 0x3000))%N.

Definition mounterr_pattern : list (list atom) :=
  [ List.map Lit (str "error(") ++ [Plus is_digit true; Lit 41%N];
    [Plus is_dot false; Lit 58%N; Plus is_dot false; Lit 58%N;
     One is_space; Plus is_dot true] ].

(** [str(x)] and ['{}'.format(x)] of a value that is a [str] or [None]. *)
Definition str_of_optstr (x : option pystr) : pystr :=
  match x with Some s => s | None => str "None" end.

(** ** The Fernet cipher of the [cryptography] package

    The cipher is a library outside the program: it is an interface here.
    [fernet_encrypt] takes the random bytes and the clock it reads as a
    [nonce]; [fernet_decrypt] answers [None] where the library raises
    [InvalidToken]. *)

Class Fernet := {
  fkey : Type;
  nonce : Type;
  fernet_encrypt : fkey -> nonce -> list byte -> list byte;
  fernet_decrypt : fkey -> list byte -> option (list byte)
}.

(** What the library promises: a token decrypts, under the key that made
    it, to the bytes that were encrypted. *)
Definition fernet_sound (F : Fernet) : Prop :=
  forall (k : fkey) (r : nonce) (b : list byte),
    fernet_decrypt k (fernet_encrypt k r b) = Some b.

(** ** The state of a run *)

(** [self.status] *)
Record status := mkStatus {
  error : Z;
  successcount : Z;
  failedcount : Z;
  success : list pystr;
  failed : list pystr;
  attempts : gmap pystr Z;
  messages : list pystr
}.

Definition status0 : status :=
  {| error := 0; successcount := 0; failedcount := 0; success := [];
     failed := []; attempts := ∅; messages := [] |}.

(** What [proc.communicate()] and [proc.returncode] give. *)
Record proc := mkProc {
  returncode : Z;
  stdout : pystr;
  stderr : pystr
}.

Inductive event :=
| Syslog (msg : pystr)
| Print (msg : pystr)
| PrintStatus (s : status)
| WriteStderr (msg : pystr)
| Popen (cmd : pystr) (p : proc)
| Sleep (secs : Z)
| Makedirs (path : pystr).

(** The exceptions of [os.makedirs]: [PermissionError] and the other
    subclasses of [OSError]. *)
Inductive oserror := PermissionError | OtherOSError.

Inductive exn :=
| AttributeError
| KeyError
| InvalidToken
| UnicodeEncodeError
| UnicodeDecodeError
| OSError (e : oserror)
| SystemExit (code : Z).

(** A row of [cifstab]: the name as text, the other columns as the
    tokens [encrypt] returned. *)
Record row := mkRow {
  row_name : pystr;
  row_address : list byte;
  row_sharename : list byte;
  row_mountpoint : list byte;
  row_options : list byte;
  row_user : list byte;
  row_password : list byte
}.

(** The dict [getcredentials] builds. *)
Record credentials := mkCredentials {
  c_name : pystr;
  c_address : pystr;
  c_sharename : pystr;
  c_mountpoint : pystr;
  c_options : pystr;
  c_user : pystr;
  c_password : pystr
}.

Section Cifscloak.
Context {F : Fernet}.

(** The answers of the outside world, each a function of the trace so
    far. [makedirs] answers the exception [os.makedirs] raises, if any;
    [urandom tr i] is the nonce of the [i]-th encryption after [tr]. *)
Record env := mkEnv {
  popen : list event -> pystr -> proc;
  path_exists : list event -> pystr -> bool;
  makedirs : list event -> pystr -> option oserror;
  getpass : list event -> pystr;
  urandom : list event -> nat -> nonce;
  generate_key : list event -> fkey
}.

(** What the trace shows: the commands run with how they ended, and the
    waits. *)
Definition runs (tr : list event) : list (pystr * proc) :=
  omap (fun e => match e with Popen cmd p => Some (cmd, p) | _ => None end) tr.

Definition commands_run (tr : list event) : list pystr :=
  List.map fst (runs tr).

Definition sleeps (tr : list event) : list Z :=
  omap (fun e => match e with Sleep secs => Some secs | _ => None end) tr.

(** The [Cifscloak] object, the table behind [self.cursor] and the trace. *)
Record state := mkState {
  self_status : status;
  self_retries : Z;
  self_waitsecs : Z;
  self_key : fkey;
  cifstab : list row;
  trace : list event
}.

Definition set_status (f : status -> status) (s : state) : state :=
  {| self_status := f (self_status s); self_retries := self_retries s;
     self_waitsecs := self_waitsecs s; self_key := self_key s;
     cifstab := cifstab s; trace := trace s |}.

Definition set_cifstab (f : list row -> list row) (s : state) : state :=
  {| self_status := self_status s; self_retries := self_retries s;
     self_waitsecs := self_waitsecs s; self_key := self_key s;
     cifstab := f (cifstab s); trace := trace s |}.

Definition log (e : event) (s : state) : state :=
  {| self_status := self_status s; self_retries := self_retries s;
     self_waitsecs := self_waitsecs s; self_key := self_key s;
     cifstab := cifstab s; trace := trace s ++ [e] |}.

(** *** The monad: state, exceptions, and fuel for the [while] loop *)

Inductive result (A : Type) :=
| Ok (a : A) (s : state)
| Raise (e : exn) (s : state)
| OutOfFuel.
Arguments Ok {A} a s.
Arguments Raise {A} e s.
Arguments OutOfFuel {A}.

Definition M (A : Type) := state -> result A.

Definition ret {A} (a : A) : M A := fun s => Ok a s.

Definition bind {A B} (m : M A) (k : A -> M B) : M B :=
  fun s =>
    match m s with
    | Ok a s' => k a s'
    | Raise e s' => Raise e s'
    | OutOfFuel => OutOfFuel
    end.

Definition raise {A} (e : exn) : M A := fun s => Raise e s.
Definition get : M state := fun s => Ok s s.
Definition modify (f : state -> state) : M unit := fun s => Ok tt (f s).
Definition emit (e : event) : M unit := modify (log e).
Definition update_status (f : status -> status) : M unit :=
  modify (set_status f).

End Cifscloak.

Arguments Ok {F A} a s.
Arguments Raise {F A} e s.
Arguments OutOfFuel {F A}.

Notation "x <- m ;; k" := (bind m (fun x => k))
  (at level 100, m at next level, right associativity).
Notation "m ;;; k" := (bind m (fun _ => k))
  (at level 100, right associativity).

(** ** The methods of [Cifscloak] *)

Record addargs := mkAddargs {
  a_name : pystr;
  a_sharename : pystr;
  a_ipaddress : pystr;
  a_mountpoint : pystr;
  a_user : pystr;
  a_options : pystr
}.

Record mountargs := mkMountargs {
  m_u : bool;
  m_retries : Z;
  m_waitsecs : Z;
  m_names : list pystr;
  m_all : bool
}.

(** [retryschema] *)
Definition retryschema_mount : list (pystr * pystr) :=
  [(str "16", str "Device or resource busy")].
Definition retryschema_umount : list pystr := [str "target is busy."].

(** How one turn of the [while] loop of [execute] ends. *)
Inductive flow := Next | Break.

Section Methods.
Context {F : Fernet}.
Variable E : env.

Definition encrypt (r : nonce) (plain : pystr) : M (list byte) :=
  s <- get;;
  match utf8_encode plain with
  | Some b => ret (fernet_encrypt (self_key s) r b)
  | None => raise UnicodeEncodeError
  end.

Definition decrypt (encrypted : list byte) : M pystr :=
  s <- get;;
  match fernet_decrypt (self_key s) encrypted with
  | Some b =>
      match utf8_decode b with
      | Some plain => ret plain
      | None => raise UnicodeDecodeError
      end
  | None => raise InvalidToken
  end.

Fixpoint listmounts_rows (rows : list row) (mounts : list pystr)
  : M (list pystr) :=
  match rows with
  | [] => ret mounts
  | r :: rest =>
      emit (Print (row_name r));;;
      listmounts_rows rest (mounts ++ [row_name r])
  end.

Definition listmounts : M (list pystr) :=
  s <- get;;
  listmounts_rows (cifstab s) [].

Definition name_taken (name : pystr) (rows : list row) : bool :=
  existsb (fun r => pystr_eqb (row_name r) name) rows.

(** The [INSERT] raises [IntegrityError] on a name that is in the table
    (PRIMARY KEY); the [except] branch prints and lists the names. The six
    values are encrypted before the statement runs. *)
Definition addmount (args : addargs) : M unit :=
  s <- get;;
  let password := getpass E (trace s) in
  let r := urandom E (trace s) in
  address <- encrypt (r 0%nat) (a_ipaddress args);;
  sharename <- encrypt (r 1%nat) (a_sharename args);;
  mountpoint <- encrypt (r 2%nat) (a_mountpoint args);;
  options <- encrypt (r 3%nat) (a_options args);;
  user <- encrypt (r 4%nat) (a_user args);;
  pass <- encrypt (r 5%nat) password;;
  if name_taken (a_name args) (cifstab s) then
    emit (Print (str "Cifs mount name must be unique" ++ [10%N]
                 ++ str "Existing names:"));;;
    _ <- listmounts;;
    ret tt
  else
    modify (set_cifstab (fun rows =>
      rows ++ [mkRow (a_name args) address sharename mountpoint options
                     user pass])).

Fixpoint removemounts (names : list pystr) : M unit :=
  match names with
  | [] => ret tt
  | name :: rest =>
      modify (set_cifstab
                (List.filter (fun r => negb (pystr_eqb (row_name r) name))));;;
      removemounts rest
  end.

Fixpoint getcredentials_rows (rows : list row) (cred : option credentials)
  : M (option credentials) :=
  match rows with
  | [] => ret cred
  | r :: rest =>
      address <- decrypt (row_address r);;
      sharename <- decrypt (row_sharename r);;
      mountpoint <- decrypt (row_mountpoint r);;
      options <- decrypt (row_options r);;
      user <- decrypt (row_user r);;
      password <- decrypt (row_password r);;
      getcredentials_rows rest
        (Some (mkCredentials (row_name r) address sharename mountpoint
                             options user password))
  end.

(** The empty dict is [None]. *)
Definition getcredentials (name : pystr) : M (option credentials) :=
  s <- get;;
  getcredentials_rows
    (List.filter (fun r => pystr_eqb (row_name r) name) (cifstab s)) None.

(** [self.status['attempts'][name]], a [KeyError] when absent. *)
Definition get_attempts (name : pystr) : M Z :=
  s <- get;;
  match attempts (self_status s) !! name with
  | Some n => ret n
  | None => raise KeyError
  end.

Definition set_attempts (name : pystr) (n : Z) (st : status) : status :=
  {| error := error st; successcount := successcount st;
     failedcount := failedcount st; success := success st;
     failed := failed st; attempts := <[name := n]> (attempts st);
     messages := messages st |}.

Definition set_error (st : status) : status :=
  {| error := 1; successcount := successcount st;
     failedcount := failedcount st; success := success st;
     failed := failed st; attempts := attempts st;
     messages := messages st |}.

Definition append_message (m : pystr) (st : status) : status :=
  {| error := error st; successcount := successcount st;
     failedcount := failedcount st; success := success st;
     failed := failed st; attempts := attempts st;
     messages := messages st ++ [m] |}.

Definition record_failed (name : pystr) (st : status) : status :=
  {| error := error st; successcount := successcount st;
     failedcount := failedcount st + 1; success := success st;
     failed := failed st ++ [name]; attempts := attempts st;
     messages := messages st |}.

Definition record_success (name : pystr) (st : status) : status :=
  {| error := error st; successcount := successcount st + 1;
     failedcount := failedcount st; success := success st ++ [name];
     failed := failed st; attempts := attempts st;
     messages := messages st |}.

(** [returncode != expectedreturn], where [returncode] starts as [None]. *)
Definition differs (returncode : option Z) (expectedreturn : Z) : bool :=
  match returncode with
  | Some rc => negb (rc =? expectedreturn)
  | None => true
  end.

(** The body of the [while] loop: the new [returncode], and whether the
    turn ended in [break]. *)
Definition execute_body (cmd name : pystr) (retryon : list pystr)
    (expectedreturn : Z) : M (Z * flow) :=
  s <- get;;
  let p := popen E (trace s) cmd in
  emit (Popen cmd p);;;
  fl <- (if negb (returncode p =? 0) && negb (returncode p =? expectedreturn)
         then
           match regex_search mounterr_pattern (stderr p) with
           | None => raise AttributeError
           | Some mounterr =>
               emit (Syslog (str "Error: " ++ stderr p));;;
               emit (Syslog (str "Returned: " ++ str_of_int (returncode p)));;;
               emit (Syslog (str "MountErr: " ++ str_of_optstr mounterr));;;
               update_status set_error;;;
               update_status (append_message (name ++ str ": " ++ stderr p));;;
               emit (WriteStderr (stderr p));;;
               if str_in (str_of_optstr mounterr) retryon then
                 emit (Sleep (self_waitsecs s));;;
                 ret Next
               else
                 emit (Syslog (str "mounterr " ++ str_of_optstr mounterr
                   ++ str " not in retryschema, no retry attempt will be made"));;;
                 ret Break
           end
         else ret Next);;
  match fl with
  | Break => ret (returncode p, Break)
  | Next =>
      n <- get_attempts name;;
      update_status (set_attempts name (n + 1));;;
      ret (returncode p, Next)
  end.

(** The [while] loop; [fuel] bounds the number of turns. The test reads
    the counter only when the return code differs from the expected one. *)
Fixpoint execute_loop (fuel : nat) (cmd name : pystr) (retryon : list pystr)
    (expectedreturn : Z) (returncode : option Z) : M (option Z) :=
  s <- get;;
  test <- (if differs returncode expectedreturn
           then n <- get_attempts name;; ret (n <? self_retries s)
           else ret false);;
  if test then
    match fuel with
    | O => fun _ => OutOfFuel
    | S fuel' =>
        r <- execute_body cmd name retryon expectedreturn;;
        match snd r with
        | Break => ret (Some (fst r))
        | Next =>
            execute_loop fuel' cmd name retryon expectedreturn (Some (fst r))
        end
    end
  else ret returncode.

Definition execute (cmd name : pystr) (retryon : list pystr)
    (expectedreturn : Z) : M unit :=
  s <- get;;
  update_status (set_attempts name 0);;;
  returncode <- execute_loop (Z.to_nat (self_retries s)) cmd name retryon
                  expectedreturn None;;
  if differs returncode expectedreturn then
    update_status set_error;;;
    update_status (record_failed name)
  else
    update_status (record_success name).

Definition umount_cmd (c : credentials) : pystr :=
  str "umount " ++ c_mountpoint c.

Definition mount_cmd (c : credentials) : pystr :=
  str "mount -t cifs -o username=" ++ c_user c ++ str ",password="
  ++ c_password c ++ str "," ++ c_options c ++ str " //" ++ c_address c
  ++ str "/" ++ c_sharename c ++ str " " ++ c_mountpoint c.

(** One turn of the [for] loop of [mount]. *)
Definition mount_name (u : bool) (name : pystr) : M unit :=
  cifsmount <- getcredentials name;;
  match cifsmount with
  | None =>
      let message := str "cifs name " ++ name ++ str " not found in cifstab" in
      emit (Syslog message);;;
      emit (Print message);;;
      update_status (append_message message);;;
      update_status set_error
  | Some c =>
      if u then
        emit (Syslog (str "Attempting umount " ++ name));;;
        execute (umount_cmd c) name retryschema_umount 0
      else
        emit (Syslog (str "Attempting mount " ++ name));;;
        s <- get;;
        (if path_exists E (trace s) (c_mountpoint c) then ret tt
         else
           match makedirs E (trace s) (c_mountpoint c) with
           | Some e => raise (OSError e)
           | None => emit (Makedirs (c_mountpoint c))
           end);;;
        execute (mount_cmd c) name (List.map fst retryschema_mount) 0
  end.

Fixpoint mount_names (u : bool) (mounts : list pystr) : M unit :=
  match mounts with
  | [] => ret tt
  | name :: rest => mount_name u name;;; mount_names u rest
  end.

Definition mount (args : mountargs) : M unit :=
  mounts <- (if m_all args then listmounts
             else ret (dict_fromkeys (m_names args)));;
  mount_names (m_u args) mounts.

End Methods.

(** ** Start-up, exit status and the entry point *)

(** The files under [cifstabdir] before the process starts: the rows of
    the database and the key file, if it exists. *)
Record disk {F : Fernet} := mkDisk {
  disk_cifstab : list row;
  disk_keyfile : option fkey
}.

(** How the process ends; [uncaught] is the exception of the traceback,
    if the interpreter printed one. *)
Record finish {F : Fernet} := mkFinish {
  exit_code : Z;
  uncaught : option exn;
  final_status : status;
  final_cifstab : list row;
  final_trace : list event
}.

Arguments mkDisk {F} _ _.
Arguments mkFinish {F} _ _ _ _ _.

Inductive command :=
| Addmount (args : addargs)
| Mount (args : mountargs)
| Removemounts (names : list pystr)
| Listmounts.

Definition defaultRetries : Z := 3.
Definition defaultWaitSecs : Z := 5.

Section Main.
Context {F : Fernet}.
Variable E : env.

Definition cifstabdir : pystr := str "/root/.cifstab".

Definition boot (d : disk) (retries waitsecs : Z) (tr : list event) : state :=
  {| self_status := status0; self_retries := retries;
     self_waitsecs := waitsecs;
     self_key := match disk_keyfile d with
                 | Some k => k
                 | None => generate_key E tr
                 end;
     cifstab := disk_cifstab d; trace := tr |}.

(** [__init__]: on the left the process has ended in the constructor
    ([sys.exit(1)] after [PermissionError], or another exception of
    [os.makedirs] that nothing catches). *)
Definition init (d : disk) (retries waitsecs : Z) : finish + state :=
  if path_exists E [] cifstabdir then inr (boot d retries waitsecs [])
  else
    match makedirs E [] cifstabdir with
    | None => inr (boot d retries waitsecs [Makedirs cifstabdir])
    | Some PermissionError =>
        inl {| exit_code := 1; uncaught := None; final_status := status0;
               final_cifstab := disk_cifstab d;
               final_trace :=
                 [Print (str "PermissionError - must be root user to read cifstab")] |}
    | Some e =>
        inl {| exit_code := 1; uncaught := Some (OSError e);
               final_status := status0;
               final_cifstab := disk_cifstab d; final_trace := [] |}
    end.

(** [parser.exit(status=...)] raises [SystemExit]. *)
Definition checkstatus : M unit :=
  s <- get;;
  (if negb (error (self_status s) =? 0)
   then emit (PrintStatus (self_status s)) else ret tt);;;
  raise (SystemExit (error (self_status s))).

Definition subcommand (c : command) : M unit :=
  match c with
  | Addmount args => addmount E args
  | Mount args => mount E args
  | Removemounts names => removemounts names
  | Listmounts => _ <- listmounts;; ret tt
  end.

Definition retries_of (c : command) : Z :=
  match c with Mount args => m_retries args | _ => defaultRetries end.

Definition waitsecs_of (c : command) : Z :=
  match c with Mount args => m_waitsecs args | _ => defaultWaitSecs end.

(** The exit status of the interpreter: the code of [SystemExit], 1 for
    any other exception that reaches the top. *)
Definition finish_of (r : result unit) : option finish :=
  match r with
  | Ok _ s => Some (mkFinish 0 None (self_status s) (cifstab s) (trace s))
  | Raise (SystemExit code) s =>
      Some (mkFinish code None (self_status s) (cifstab s) (trace s))
  | Raise e s =>
      Some (mkFinish 1 (Some e) (self_status s) (cifstab s) (trace s))
  | OutOfFuel => None
  end.

(** The [__main__] block. *)
Definition main (d : disk) (c : command) : option finish :=
  match init d (retries_of c) (waitsecs_of c) with
  | inl f => Some f
  | inr s0 => finish_of ((subcommand c;;; checkstatus) s0)
  end.

End Main.

(** ** A stand-in cipher and canned environments for the scenarios *)

(** A token is the key byte, the nonce byte and the plain bytes; a token
    made under another key is refused. *)
Definition stub_fernet : Fernet :=
  {| fkey := byte; nonce := byte;
     fernet_encrypt := fun k r b => k :: r :: b;
     fernet_decrypt := fun k t =>
       match t with
       | k' :: _ :: b => if Byte.eqb k k' then Some b else None
       | _ => None
       end |}.

(** The typed password, the random bytes and the fresh key are fixed. *)
Definition stub_env_of (run : list event -> pystr -> proc)
    (present : list event -> pystr -> bool)
    (mk : list event -> pystr -> option oserror) : @env stub_fernet :=
  @mkEnv stub_fernet run present mk (fun _ => str "secret")
    (fun _ i => mkbyte (N.of_nat i)) (fun _ => x2a).

(** Every command ends with [p]; every path exists. *)
Definition stub_env (p : proc) : @env stub_fernet :=
  stub_env_of (fun _ _ => p) (fun _ _ => true) (fun _ _ => None).

Definition proc_ok : proc := mkProc 0 [] [].
Definition proc_busy : proc :=
  mkProc 16 [] (str "mount error(16): Device or resource busy" ++ [10%N]).
Definition proc_denied : proc :=
  mkProc 32 [] (str "mount error(13): Permission denied" ++ [10%N]).
Definition proc_usage : proc :=
  mkProc 1 [] (str "mount: only root can do that" ++ [10%N]).


(** The directory is missing and may not be made. *)
Definition env_not_root : @env stub_fernet :=
  stub_env_of (fun _ _ => proc_ok) (fun _ _ => false)
    (fun _ _ => Some PermissionError).

Definition fileserver_args : addargs :=
  {| a_name := str "fileserver"; a_sharename := str "docs";
     a_ipaddress := str "10.0.0.5"; a_mountpoint := str "/mnt/docs";
     a_user := str "alice"; a_options := str " " |}.

Definition empty_disk : @disk stub_fernet := @mkDisk stub_fernet [] None.

(** The disk after a run of [c] on the disk [d]. *)
Definition disk_after (d : @disk stub_fernet) (c : command)
  : @disk stub_fernet :=
  match main (stub_env proc_ok) d c with
  | Some f => @mkDisk stub_fernet (final_cifstab f) (Some x2a)
  | None => d
  end.

(** The disk after [addmount -n fileserver ...] on an empty one. *)
Definition fileserver_disk : @disk stub_fernet :=
  disk_after empty_disk (Addmount fileserver_args).

Definition share_args (name : string) : addargs :=
  {| a_name := str name; a_sharename := str name;
     a_ipaddress := str "10.0.0.5"; a_mountpoint := str "/mnt/" ++ str name;
     a_user := str "alice"; a_options := str "ro" |}.

(** The disk with the entries [a] and [b]. *)
Definition ab_disk : @disk stub_fernet :=
  disk_after (disk_after empty_disk (Addmount (share_args "a")))
    (Addmount (share_args "b")).

Definition mount_names_args (names : list string) (retries : Z) : mountargs :=
  {| m_u := false; m_retries := retries; m_waitsecs := 5;
     m_names := List.map str names; m_all := false |}.

(** The field values of [addmount], the typed password last, in the order
    in which they are encrypted. *)
Definition field_values (args : addargs) (password : pystr) : list pystr :=
  [a_ipaddress args; a_sharename args; a_mountpoint args; a_options args;
   a_user args; password].

Definition duplicate_message : pystr :=
  str "Cifs mount name must be unique" ++ [10%N] ++ str "Existing names:".

(** ** Notions used in the statements *)

Section Notions.
Context {F : Fernet}.

(** What no method changes after start-up, but for [addmount] and
    [removemounts] on the table. *)
Definition same_object (s s' : state) : Prop :=
  self_retries s' = self_retries s /\ self_waitsecs s' = self_waitsecs s /\
  self_key s' = self_key s /\ cifstab s' = cifstab s.

(** The success and failed lists and their counts are as before. *)
Definition same_lists (s s' : state) : Prop :=
  success (self_status s') = success (self_status s) /\
  successcount (self_status s') = successcount (self_status s) /\
  failed (self_status s') = failed (self_status s) /\
  failedcount (self_status s') = failedcount (self_status s).

(** The counter [status['attempts'][name]]. *)
Definition counter (name : pystr) (s : state) : option Z :=
  attempts (self_status s) !! name.

(** [returncode and returncode != expectedreturn] *)
Definition attempt_failed (p : proc) (expectedreturn : Z) : bool :=
  negb (returncode p =? 0) && negb (returncode p =? expectedreturn).


(** An exception other than [SystemExit]. *)
Definition not_exit (e : exn) : Prop :=
  match e with SystemExit _ => False | _ => True end.

Definition not_popen (e : event) : Prop :=
  match e with Popen _ _ => False | _ => True end.

(** A property of the state that every step of [mount] keeps. *)
Record stable (E : env) (I : state -> Prop) : Prop := {
  stable_log : forall s e, not_popen e -> I s -> I (log e s);
  stable_attempts : forall s name n,
    I s -> I (set_status (set_attempts name n) s);
  stable_body : forall s cmd name retryon n r s',
    I s -> counter name s = Some n ->
    execute_body E cmd name retryon 0 s = Ok r s' -> I s';
  stable_failed : forall s name,
    I s -> I (set_status (record_failed name) (set_status set_error s));
  stable_success : forall s name,
    I s -> I (set_status (record_success name) s);
  stable_not_found : forall s m,
    I s -> I (set_status set_error (set_status (append_message m) s))
}.


End Notions.

Section LoopStates.
Context {F : Fernet}.
Variable E : env.
Variables cmd name : pystr.
Variable retryon : list pystr.
Variable expectedreturn : Z.



End LoopStates.


Section RecordedNames.
Context {F : Fernet}.


(** Each count is the length of its list. *)
Definition counts_consistent (s : state) : Prop :=
  successcount (self_status s)
    = Z.of_nat (length (success (self_status s))) /\
  failedcount (self_status s)
    = Z.of_nat (length (failed (self_status s))).

End RecordedNames.

(** ** Further notions: the table *)

(** The PRIMARY KEY of [cifstab]: no two rows under one name. *)
Definition unique_names (rows : list row) : Prop :=
  List.NoDup (List.map row_name rows).


(** ** Further notions: the attempts of one [execute] *)







(** ** Further notions: the pattern *)

(** The literal characters of a pattern, in order. *)
Fixpoint lits (p : list atom) : pystr :=
  match p with
  | [] => []
  | Lit c :: p' => c :: lits p'
  | _ :: p' => lits p'
  end.

(** The pattern has no group. *)
Fixpoint no_group (p : list atom) : bool :=
  match p with
  | [] => true
  | Plus _ true :: _ => false
  | _ :: p' => no_group p'
  end.

(** A character of a line of a message that is neither a colon nor an
    opening parenthesis. *)
Definition plain (c : N) : Prop := c <> 10%N /\ c <> 58%N /\ c <> 40%N.

(** How many times [c] occurs in [s]. *)
Definition count_char (c : N) (s : pystr) : nat :=
  length (List.filter (N.eqb c) s).

(** * Properties *)

Lemma mkbyte_to_N (n : N) : (n < 256)%N -> Byte.to_N (mkbyte n) = n.
Proof.
  intros Hn. unfold mkbyte.
  destruct (Byte.of_N n) as [b|] eqn:E.
  - now apply Byte.to_of_N.
  - apply Byte.of_N_None_iff in E. lia.
Qed.

Ltac divlia := zify; Z.to_euclidean_division_equations; lia.

Ltac decide_cond :=
  match goal with
  | |- context [N.ltb ?a ?b] =>
      first [ replace (N.ltb a b) with true by (symmetry; apply N.ltb_lt; divlia)
            | replace (N.ltb a b) with false by (symmetry; apply N.ltb_ge; divlia) ]
  | |- context [N.leb ?a ?b] =>
      first [ replace (N.leb a b) with true by (symmetry; apply N.leb_le; divlia)
            | replace (N.leb a b) with false by (symmetry; apply N.leb_gt; divlia) ]
  end.

Lemma utf8_decode_cons (b0 : byte) (r0 : list byte) :
  utf8_decode (b0 :: r0) =
    let n0 := Byte.to_N b0 in
    if (n0 <? 0x80)%N then
      match utf8_decode r0 with Some v => Some (n0 :: v) | None => None end
    else if (n0 <? 0xC0)%N then None
    else if (n0 <? 0xE0)%N then
      match r0 with
      | b1 :: r1 =>
          let c := ((n0 - 0xC0) * 64 + contbits b1)%N in
          if is_cont b1 && (0x80 <=? c)%N then
            match utf8_decode r1 with Some v => Some (c :: v) | None => None end
          else None
      | _ => None
      end
    else if (n0 <? 0xF0)%N then
      match r0 with
      | b1 :: b2 :: r2 =>
          let c := ((n0 - 0xE0) * 4096 + contbits b1 * 64 + contbits b2)%N in
          if is_cont b1 && is_cont b2 && (0x800 <=? c)%N
             && negb (is_surrogate c) then
            match utf8_decode r2 with Some v => Some (c :: v) | None => None end
          else None
      | _ => None
      end
    else if (n0 <? 0xF8)%N then
      match r0 with
      | b1 :: b2 :: b3 :: r3 =>
          let c := ((n0 - 0xF0) * 262144 + contbits b1 * 4096
                    + contbits b2 * 64 + contbits b3)%N in
          if is_cont b1 && is_cont b2 && is_cont b3
             && (0x10000 <=? c)%N && (c <? 0x110000)%N then
            match utf8_decode r3 with Some v => Some (c :: v) | None => None end
          else None
      | _ => None
      end
    else None.
Proof. reflexivity. Qed.

Lemma utf8_decode_cp (c : N) (enc rest : list byte) :
  utf8_encode_cp c = Some enc ->
  utf8_decode (enc ++ rest) =
    match utf8_decode rest with Some v => Some (c :: v) | None => None end.
Proof.
  unfold utf8_encode_cp, is_surrogate.
  destruct (N.ltb_spec c 0x80) as [H1|H1];
    [|destruct (N.ltb_spec c 0x800) as [H2|H2];
      [|destruct (N.ltb_spec c 0x10000) as [H3|H3];
        [destruct (N.leb_spec 0xD800 c) as [H4|H4];
          [destruct (N.leb_spec c 0xDFFF) as [H5|H5]|]
        |destruct (N.ltb_spec c 0x110000) as [H4|H4]]]];
    cbn [andb]; intros [= <-]; cbn [app];
    rewrite utf8_decode_cons; cbv zeta;
    unfold is_cont, contbits, is_surrogate;
    rewrite ?mkbyte_to_N by divlia;
    repeat decide_cond; cbn [andb negb];
    destruct (utf8_decode rest); try reflexivity;
    do 2 f_equal; divlia.
Qed.

Lemma utf8_roundtrip (v : pystr) (bs : list byte) :
  utf8_encode v = Some bs -> utf8_decode bs = Some v.
Proof.
  revert bs. induction v as [|c v IH]; intros bs; cbn [utf8_encode].
  - now intros [= <-].
  - destruct (utf8_encode_cp c) as [enc|] eqn:Ec; [|discriminate].
    destruct (utf8_encode v) as [bv|]; [|discriminate].
    intros [= <-]. rewrite (utf8_decode_cp _ _ _ Ec), (IH bv eq_refl).
    reflexivity.
Qed.

(** ** Reasoning about the monad *)

(** The literals of the program stay folded. *)
Arguments str : simpl never.
Arguments str_of_int : simpl never.
Arguments duplicate_message : simpl never.
Arguments regex_search : simpl never.

Ltac munfold :=
  cbv [bind get ret raise modify emit update_status].

Lemma bind_ok {F : Fernet} {A B} (m : M A) (k : A -> M B) s a s' :
  m s = Ok a s' -> bind m k s = k a s'.
Proof. intros H. unfold bind. now rewrite H. Qed.

Lemma bind_raise {F : Fernet} {A B} (m : M A) (k : A -> M B) s e s' :
  m s = Raise e s' -> bind m k s = Raise e s'.
Proof. intros H. unfold bind. now rewrite H. Qed.

(** ** Encryption *)

Lemma stub_fernet_sound : fernet_sound stub_fernet.
Proof.
  intros k r b. cbn.
  assert (Byte.eqb k k = true) as -> by now apply Byte.byte_dec_lb.
  reflexivity.
Qed.

Lemma encrypt_ok {F : Fernet} (r : nonce) (v : pystr) (b : list byte) s :
  utf8_encode v = Some b ->
  encrypt r v s = Ok (fernet_encrypt (self_key s) r b) s.
Proof. intros H. unfold encrypt. munfold. now rewrite H. Qed.

(** C6. Under the key of the process, decrypting what [encrypt] returned
    for a string that UTF-8 can encode gives the string back, whatever
    nonce the cipher drew; the cipher is any that keeps the promise of
    Fernet. *)
Theorem encrypt_decrypt_roundtrip {F : Fernet} (s : state) (r : nonce)
    (v : pystr) :
  fernet_sound F ->
  is_Some (utf8_encode v) ->
  (c <- encrypt r v;; decrypt c) s = Ok v s.
Proof.
  intros HF [b Hb].
  rewrite (bind_ok _ _ _ _ _ (encrypt_ok r v b s Hb)).
  unfold decrypt. munfold.
  now rewrite HF, (utf8_roundtrip v b Hb).
Qed.

Lemma encrypt_decrypt_roundtrip_witness :
  let s := boot (stub_env proc_ok) empty_disk 3 5 [] in
  is_Some (utf8_encode (str "secret")) /\
  (c <- @encrypt stub_fernet x05 (str "secret");; decrypt c) s
    = Ok (str "secret") s.
Proof.
  assert (H : is_Some (utf8_encode (str "secret"))) by (vm_compute; eauto).
  split; [exact H|].
  exact (@encrypt_decrypt_roundtrip stub_fernet _ x05 (str "secret")
           stub_fernet_sound H).
Defined.

(** ** The table *)

Lemma listmounts_rows_ok {F : Fernet} (rows : list row) (acc : list pystr) s :
  exists s',
    listmounts_rows rows acc s = Ok (acc ++ List.map row_name rows) s' /\
    cifstab s' = cifstab s /\ self_status s' = self_status s /\
    self_retries s' = self_retries s /\ self_waitsecs s' = self_waitsecs s /\
    self_key s' = self_key s /\
    trace s' = trace s ++ List.map (fun r => Print (row_name r)) rows.
Proof.
  revert acc s. induction rows as [|r rows IH]; intros acc s; cbn.
  - exists s. munfold. now rewrite !app_nil_r.
  - munfold. cbn. destruct (IH (acc ++ [row_name r]) (log (Print (row_name r)) s))
      as (s' & -> & ? & ? & ? & ? & ? & Htr).
    exists s'. rewrite <- app_assoc. cbn in *. repeat split; try assumption.
    now rewrite Htr, <- app_assoc.
Qed.

Lemma encrypt_cases {F : Fernet} (r : nonce) (v : pystr) s :
  (exists b, utf8_encode v = Some b /\
             encrypt r v s = Ok (fernet_encrypt (self_key s) r b) s)
  \/ (utf8_encode v = None /\ encrypt r v s = Raise UnicodeEncodeError s).
Proof.
  unfold encrypt. munfold. destruct (utf8_encode v) as [b|]; eauto.
Qed.

(** C7. [addmount] under a name that is already in the table: the table is
    left as it was, whether the call returns or raises; and when the six
    values can be encoded the call returns after printing the message of
    the duplicate name and the names of the table, with the status
    untouched. *)
Theorem addmount_duplicate_name {F : Fernet} (E : env) (args : addargs)
    (s : state) :
  name_taken (a_name args) (cifstab s) = true ->
  match addmount E args s with
  | Ok _ s' | Raise _ s' => cifstab s' = cifstab s
  | OutOfFuel => False
  end /\
  (Forall (fun v => is_Some (utf8_encode v))
     (field_values args (getpass E (trace s))) ->
   exists s',
     addmount E args s = Ok tt s' /\
     cifstab s' = cifstab s /\
     self_status s' = self_status s /\
     trace s' = trace s ++ Print duplicate_message
                  :: List.map (fun r => Print (row_name r)) (cifstab s)).
Proof.
  intros Hdup.
  assert (Hlist : exists s',
     (emit (Print duplicate_message);;; _ <- listmounts;; ret tt) s = Ok tt s' /\
     cifstab s' = cifstab s /\ self_status s' = self_status s /\
     trace s' = trace s ++ Print duplicate_message
                  :: List.map (fun r => Print (row_name r)) (cifstab s)).
  { unfold listmounts. munfold. cbn.
    destruct (listmounts_rows_ok (cifstab s) [] (log (Print duplicate_message) s))
      as (s' & -> & ? & ? & ? & ? & ? & Htr).
    exists s'. cbn in *. repeat split; try assumption.
    now rewrite Htr, <- app_assoc. }
  destruct Hlist as (s1 & Hrun & Hc & Hs & Ht).
  unfold addmount. fold duplicate_message.
  rewrite (bind_ok get _ s s s eq_refl).
  split.
  - repeat match goal with
    | |- context [bind (encrypt ?r ?v) ?k ?s] =>
        let b := fresh "b" in
        let Hb := fresh "Hb" in
        destruct (encrypt_cases r v s) as [(b & _ & Hb)|[_ Hb]];
        [rewrite (bind_ok _ _ _ _ _ Hb)
        |rewrite (bind_raise _ _ _ _ _ Hb); reflexivity]
    end.
    rewrite Hdup, Hrun. exact Hc.
  - unfold field_values. intros Hv.
    repeat match goal with
    | H : Forall _ (_ :: _) |- _ => apply Forall_cons in H; destruct H as [[? ?] H]
    end.
    repeat match goal with
    | Hb : utf8_encode ?v = Some ?b |- context [bind (encrypt ?r ?v) ?k ?s] =>
        rewrite (bind_ok _ _ _ _ _ (encrypt_ok r v b s Hb))
    end.
    rewrite Hdup. exists s1. auto.
Qed.

Lemma addmount_duplicate_name_witness :
  let s := boot (stub_env proc_ok) fileserver_disk 3 5 [] in
  exists s',
    addmount (stub_env proc_ok) fileserver_args s = Ok tt s' /\
    cifstab s' = cifstab s /\
    self_status s' = self_status s /\
    trace s' = trace s ++ Print duplicate_message
                 :: List.map (fun r => Print (row_name r)) (cifstab s).
Proof.
  intros s.
  assert (H1 : name_taken (a_name fileserver_args) (cifstab s) = true)
    by (vm_compute; reflexivity).
  assert (H2 : Forall (fun v => is_Some (utf8_encode v))
     (field_values fileserver_args (getpass (stub_env proc_ok) (trace s)))).
  { unfold field_values. repeat (constructor; [vm_compute; eauto|]). constructor. }
  exact (proj2 (addmount_duplicate_name (stub_env proc_ok) fileserver_args s H1) H2).
Defined.

(** ** The retry loop *)

Lemma runs_snoc (tr : list event) (e : event) :
  runs (tr ++ [e]) =
    runs tr ++ match e with Popen cmd p => [(cmd, p)] | _ => [] end.
Proof. unfold runs. rewrite omap_app. cbn. now destruct e. Qed.

Lemma sleeps_snoc (tr : list event) (e : event) :
  sleeps (tr ++ [e]) =
    sleeps tr ++ match e with Sleep secs => [secs] | _ => [] end.
Proof. unfold sleeps. rewrite omap_app. cbn. now destruct e. Qed.

Ltac mrun :=
  cbv [execute_body get_attempts bind get ret raise modify emit update_status];
  cbn [self_status self_retries self_waitsecs self_key cifstab trace
       set_status set_cifstab log
       error successcount failedcount success failed attempts messages
       set_attempts set_error append_message record_failed record_success
       fst snd].

Ltac sproj :=
  cbn [self_status self_retries self_waitsecs self_key cifstab trace
       set_status set_cifstab log
       error successcount failedcount success failed attempts messages
       set_attempts set_error append_message record_failed record_success
       fst snd] in *.

Ltac body_facts :=
  rewrite ?runs_snoc, ?sleeps_snoc, <- ?app_assoc, ?app_nil_r,
          ?lookup_insert_eq;
  cbn [app];
  first [ reflexivity
        | intros; rewrite lookup_insert_ne by congruence; reflexivity
        | idtac ].

Lemma execute_body_spec {F : Fernet} (E : env) (cmd name : pystr)
    (retryon : list pystr) (expectedreturn : Z) (s : state) (n : Z) :
  counter name s = Some n ->
  let p := popen E (trace s) cmd in
  match execute_body E cmd name retryon expectedreturn s with
  | OutOfFuel => False
  | Raise e s' =>
      e = AttributeError /\ attempt_failed p expectedreturn = true /\
      regex_search mounterr_pattern (stderr p) = None /\
      s' = log (Popen cmd p) s
  | Ok (rc, fl) s' =>
      rc = returncode p /\ same_object s s' /\ same_lists s s' /\
      runs (trace s') = runs (trace s) ++ [(cmd, p)] /\
      (forall other, other <> name -> counter other s' = counter other s) /\
      if attempt_failed p expectedreturn then
        exists mounterr,
          regex_search mounterr_pattern (stderr p) = Some mounterr /\
          error (self_status s') = 1 /\
          messages (self_status s') =
            messages (self_status s) ++ [name ++ str ": " ++ stderr p] /\
          if str_in (str_of_optstr mounterr) retryon then
            fl = Next /\ counter name s' = Some (n + 1) /\
            sleeps (trace s') = sleeps (trace s) ++ [self_waitsecs s]
          else
            fl = Break /\ counter name s' = Some n /\
            sleeps (trace s') = sleeps (trace s)
      else
        fl = Next /\ counter name s' = Some (n + 1) /\
        error (self_status s') = error (self_status s) /\
        messages (self_status s') = messages (self_status s) /\
        sleeps (trace s') = sleeps (trace s)
  end.
Proof.
  intros Hn p. subst p. unfold counter in Hn. unfold attempt_failed.
  mrun.
  destruct (negb (returncode (popen E (trace s) cmd) =? 0)
            && negb (returncode (popen E (trace s) cmd) =? expectedreturn)).
  - destruct (regex_search mounterr_pattern (stderr (popen E (trace s) cmd)))
      as [mounterr|]; [|now mrun].
    mrun. destruct (str_in (str_of_optstr mounterr) retryon) eqn:Hin; mrun;
      [rewrite Hn; mrun|];
      unfold same_object, same_lists, counter; mrun;
      (repeat split; [..|exists mounterr; rewrite Hin; repeat split]);
      body_facts; try assumption.
  - mrun. rewrite Hn. mrun. unfold same_object, same_lists, counter. mrun.
    repeat split; body_facts.
Qed.

Lemma same_object_refl {F : Fernet} (s : state) : same_object s s.
Proof. now unfold same_object. Qed.

Lemma same_object_trans {F : Fernet} (s1 s2 s3 : state) :
  same_object s1 s2 -> same_object s2 s3 -> same_object s1 s3.
Proof. unfold same_object. intuition congruence. Qed.

Lemma same_lists_refl {F : Fernet} (s : state) : same_lists s s.
Proof. now unfold same_lists. Qed.

Lemma same_lists_trans {F : Fernet} (s1 s2 s3 : state) :
  same_lists s1 s2 -> same_lists s2 s3 -> same_lists s1 s3.
Proof. unfold same_lists. intuition congruence. Qed.

Lemma execute_loop_unfold {F : Fernet} (E : env) (fuel : nat)
    (cmd name : pystr) (retryon : list pystr) (expectedreturn : Z)
    (rc : option Z) (s : state) (n : Z) :
  counter name s = Some n ->
  execute_loop E fuel cmd name retryon expectedreturn rc s =
    if differs rc expectedreturn && (n <? self_retries s) then
      match fuel with
      | O => OutOfFuel
      | S fuel' =>
          match execute_body E cmd name retryon expectedreturn s with
          | Ok r s1 =>
              match snd r with
              | Break => Ok (Some (fst r)) s1
              | Next =>
                  execute_loop E fuel' cmd name retryon expectedreturn
                    (Some (fst r)) s1
              end
          | Raise e s1 => Raise e s1
          | OutOfFuel => OutOfFuel
          end
      end
    else Ok rc s.
Proof.
  unfold counter. intros Hn.
  assert (Htest :
    (if differs rc expectedreturn
     then n <- get_attempts name;; ret (n <? self_retries s)
     else ret false) s
    = Ok (differs rc expectedreturn && (n <? self_retries s)) s).
  { destruct (differs rc expectedreturn); [|reflexivity].
    unfold get_attempts. munfold. now rewrite Hn. }
  destruct fuel; cbn [execute_loop];
    rewrite (bind_ok get _ s s s eq_refl), (bind_ok _ _ _ _ _ Htest);
    destruct (differs rc expectedreturn && (n <? self_retries s));
    try reflexivity.
  unfold bind at 1.
  destruct (execute_body E cmd name retryon expectedreturn s) as [[r fl] s1| |];
    try reflexivity.
  now destruct fl.
Qed.

(** The loop ends within [retries - n] turns from a counter [n]; it keeps
    every invariant [I] that a turn keeps, leaves the object and the two
    lists alone, and only [AttributeError] leaves it, from a state where
    the command has just failed with a text the pattern does not match. *)
Lemma execute_loop_rule {F : Fernet} (E : env) (cmd name : pystr)
    (retryon : list pystr) (expectedreturn : Z) (I : state -> Prop) :
  (forall s n r s', I s -> counter name s = Some n ->
     execute_body E cmd name retryon expectedreturn s = Ok r s' -> I s') ->
  forall (fuel : nat) (rc : option Z) (s : state) (n : Z),
    I s -> counter name s = Some n ->
    (Z.to_nat (self_retries s - n) <= fuel)%nat ->
    match execute_loop E fuel cmd name retryon expectedreturn rc s with
    | OutOfFuel => False
    | Raise e s' =>
        e = AttributeError /\
        exists s1, I s1 /\ same_object s s1 /\ same_lists s s1 /\
          let p := popen E (trace s1) cmd in
          attempt_failed p expectedreturn = true /\
          regex_search mounterr_pattern (stderr p) = None /\
          s' = log (Popen cmd p) s1
    | Ok r s' =>
        I s' /\ same_object s s' /\ same_lists s s' /\
        (forall other, other <> name -> counter other s' = counter other s) /\
        exists n', counter name s' = Some n' /\ n <= n' /\
                   (n' <= self_retries s \/ n' = n)
    end.
Proof.
  intros Hbody fuel. induction fuel as [|fuel IH]; intros rc s n HI Hn Hfuel;
    rewrite (execute_loop_unfold E _ cmd name retryon expectedreturn rc s n Hn);
    (destruct (differs rc expectedreturn && (n <? self_retries s)) eqn:Hc;
     [apply andb_true_iff in Hc as [_ Hlt%Z.ltb_lt]
     |refine (conj HI (conj (same_object_refl s) (conj (same_lists_refl s)
                (conj (fun _ _ => eq_refl) _))));
      exists n; repeat split; auto; lia]).
  - lia.
  - pose proof (execute_body_spec E cmd name retryon expectedreturn s n Hn)
      as Hspec. cbv zeta in Hspec.
    pose proof (Hbody s n) as Hkeep.
    destruct (execute_body E cmd name retryon expectedreturn s)
      as [[r fl] s1|e s1|]; [|
      destruct Hspec as (-> & Hbad & Hre & ->); split; [reflexivity|];
      exists s; cbv zeta;
      exact (conj HI (conj (same_object_refl s) (conj (same_lists_refl s)
               (conj Hbad (conj Hre eq_refl)))))
      |contradiction].
    destruct Hspec as (-> & Hobj & Hlists & _ & Hother & Hrest).
    specialize (Hkeep _ _ HI Hn eq_refl).
    assert (Hretries : self_retries s1 = self_retries s) by apply Hobj.
    assert (Hfl : match fl with
                  | Next => counter name s1 = Some (n + 1)
                  | Break => counter name s1 = Some n
                  end).
    { destruct (attempt_failed _ _).
      - destruct Hrest as (m & _ & _ & _ & Hrest).
        destruct (str_in _ _); now destruct Hrest as (-> & ? & _).
      - now destruct Hrest as (-> & ? & _). }
    cbn [fst snd]. destruct fl.
    + specialize (IH (Some (returncode (popen E (trace s) cmd))) s1 (n + 1)
                     Hkeep Hfl ltac:(lia)).
      destruct (execute_loop E fuel cmd name retryon expectedreturn _ s1)
        as [r' s2|e s2|]; [| |contradiction].
      * destruct IH as (HI2 & Hobj2 & Hlists2 & Hother2 & n' & Hn' & Hle & Hbd).
        refine (conj HI2 (conj _ (conj _ (conj _ _)))).
        -- eauto using same_object_trans.
        -- eauto using same_lists_trans.
        -- intros other Ho. now rewrite Hother2, Hother.
        -- exists n'. repeat split; auto; lia.
      * destruct IH as (-> & s3 & HI3 & Hobj3 & Hlists3 & Hrest3).
        split; [reflexivity|]. exists s3.
        exact (conj HI3 (conj (same_object_trans _ _ _ Hobj Hobj3)
                 (conj (same_lists_trans _ _ _ Hlists Hlists3) Hrest3))).
    + refine (conj Hkeep (conj Hobj (conj Hlists (conj Hother _)))).
      exists n. repeat split; auto; lia.
Qed.

Lemma execute_unfold {F : Fernet} (E : env) (cmd name : pystr)
    (retryon : list pystr) (expectedreturn : Z) (s : state) :
  execute E cmd name retryon expectedreturn s =
    match execute_loop E (Z.to_nat (self_retries s)) cmd name retryon
            expectedreturn None (set_status (set_attempts name 0) s) with
    | Ok rc s1 =>
        if differs rc expectedreturn
        then Ok tt (set_status (record_failed name) (set_status set_error s1))
        else Ok tt (set_status (record_success name) s1)
    | Raise e s1 => Raise e s1
    | OutOfFuel => OutOfFuel
    end.
Proof.
  unfold execute. munfold.
  destruct (execute_loop E _ cmd name retryon expectedreturn None _)
    as [rc s1|e s1|]; try reflexivity.
  now destruct (differs rc expectedreturn).
Qed.

(** [execute] returns or raises [AttributeError]; when it returns, the
    name has been appended to one of the two lists, whose count went up by
    one, and the other list and count are as before. *)
Lemma execute_rule {F : Fernet} (E : env) (cmd name : pystr)
    (retryon : list pystr) (expectedreturn : Z) (I : state -> Prop) :
  (forall s, I s -> I (set_status (set_attempts name 0) s)) ->
  (forall s n r s', I s -> counter name s = Some n ->
     execute_body E cmd name retryon expectedreturn s = Ok r s' -> I s') ->
  (forall s, I s ->
     I (set_status (record_failed name) (set_status set_error s))) ->
  (forall s, I s -> I (set_status (record_success name) s)) ->
  forall s, I s ->
    match execute E cmd name retryon expectedreturn s with
    | OutOfFuel => False
    | Raise e s' =>
        e = AttributeError /\
        exists s1, I s1 /\ same_object s s1 /\ same_lists s s1 /\
          let p := popen E (trace s1) cmd in
          attempt_failed p expectedreturn = true /\
          regex_search mounterr_pattern (stderr p) = None /\
          s' = log (Popen cmd p) s1
    | Ok _ s' =>
        I s' /\ same_object s s' /\
        (forall other, other <> name -> counter other s' = counter other s) /\
        ((success (self_status s') = success (self_status s) ++ [name] /\
          successcount (self_status s') = successcount (self_status s) + 1 /\
          failed (self_status s') = failed (self_status s) /\
          failedcount (self_status s') = failedcount (self_status s))
         \/
         (failed (self_status s') = failed (self_status s) ++ [name] /\
          failedcount (self_status s') = failedcount (self_status s) + 1 /\
          success (self_status s') = success (self_status s) /\
          successcount (self_status s') = successcount (self_status s) /\
          error (self_status s') = 1))
    end.
Proof.
  intros H0 Hbody Hfail Hsucc s HI. rewrite execute_unfold.
  set (s0 := set_status (set_attempts name 0) s).
  assert (Hc0 : counter name s0 = Some 0)
    by (unfold counter, s0; cbn; apply lookup_insert_eq).
  assert (Hobj0 : same_object s s0) by (unfold same_object, s0; now cbn).
  assert (Hlists0 : same_lists s s0) by (unfold same_lists, s0; now cbn).
  assert (Hother0 : forall other, other <> name ->
                      counter other s0 = counter other s).
  { intros other Ho. unfold counter, s0. cbn. now rewrite lookup_insert_ne. }
  pose proof (execute_loop_rule E cmd name retryon expectedreturn I Hbody
                (Z.to_nat (self_retries s)) None s0 0 (H0 s HI) Hc0) as Hloop.
  assert (Hfuel : (Z.to_nat (self_retries s0 - 0) <= Z.to_nat (self_retries s))%nat)
    by (unfold s0; cbn; lia).
  specialize (Hloop Hfuel).
  destruct (execute_loop E _ cmd name retryon expectedreturn None s0)
    as [rc s1|e s1|]; [| |contradiction].
  - destruct Hloop as (HI1 & Hobj1 & Hlists1 & Hother1 & _).
    destruct Hlists1 as (Hs & Hsc & Hf & Hfc).
    destruct Hlists0 as (Hs0 & Hsc0 & Hf0 & Hfc0).
    assert (Hobj : same_object s s1) by eauto using same_object_trans.
    assert (Hother : forall other, other <> name ->
                       counter other s1 = counter other s).
    { intros other Ho. now rewrite Hother1, Hother0. }
    destruct (differs rc expectedreturn).
    + refine (conj (Hfail _ HI1) (conj Hobj (conj Hother (or_intror _)))).
      cbn. rewrite Hs, Hsc, Hf, Hfc, Hs0, Hsc0, Hf0, Hfc0. auto.
    + refine (conj (Hsucc _ HI1) (conj Hobj (conj Hother (or_introl _)))).
      cbn. rewrite Hs, Hsc, Hf, Hfc, Hs0, Hsc0, Hf0, Hfc0. auto.
  - destruct Hloop as (-> & s2 & HI2 & Hobj2 & Hlists2 & Hrest).
    split; [reflexivity|]. exists s2.
    exact (conj HI2 (conj (same_object_trans _ _ _ Hobj0 Hobj2)
             (conj (same_lists_trans _ _ _ Hlists0 Hlists2) Hrest))).
Qed.

(** C10. When [execute] returns, the name has been appended to the success
    list or to the failed list and the other list is as it was; a count
    that was the length of its list before the call is so after it. *)
Theorem execute_records_exactly_once {F : Fernet} (E : env)
    (cmd name : pystr) (retryon : list pystr) (expectedreturn : Z)
    (s s' : state) :
  execute E cmd name retryon expectedreturn s = Ok tt s' ->
  ((success (self_status s') = success (self_status s) ++ [name] /\
    failed (self_status s') = failed (self_status s))
   \/
   (failed (self_status s') = failed (self_status s) ++ [name] /\
    success (self_status s') = success (self_status s))) /\
  (successcount (self_status s) = Z.of_nat (length (success (self_status s))) ->
   successcount (self_status s') = Z.of_nat (length (success (self_status s')))) /\
  (failedcount (self_status s) = Z.of_nat (length (failed (self_status s))) ->
   failedcount (self_status s') = Z.of_nat (length (failed (self_status s')))).
Proof.
  intros Hrun.
  pose proof (execute_rule E cmd name retryon expectedreturn (fun _ => True)
                (fun _ _ => Logic.I) (fun _ _ _ _ _ _ _ => Logic.I)
                (fun _ _ => Logic.I) (fun _ _ => Logic.I) s Logic.I) as H.
  rewrite Hrun in H. destruct H as (_ & _ & _ & Hlists).
  destruct Hlists as [(Hs & Hsc & Hf & Hfc)|(Hf & Hfc & Hs & Hsc & _)];
    rewrite Hs, Hsc, Hf, Hfc, ?length_app; cbn [length];
    (split; [auto|split; lia]).
Qed.

(** *** The attempt counter *)







(** *** A command that is busy at every attempt *)

Section Busy.
Context {F : Fernet}.
Variable E : env.
Variables cmd name : pystr.
Variable retryon : list pystr.
Variable expectedreturn : Z.
Variable p : proc.
Variable mounterr : option pystr.
Hypothesis Hpopen : forall tr, popen E tr cmd = p.
Hypothesis Hfailed : attempt_failed p expectedreturn = true.
Hypothesis Htoken : regex_search mounterr_pattern (stderr p) = Some mounterr.
Hypothesis Hretry : str_in (str_of_optstr mounterr) retryon = true.




End Busy.




(** *** The first attempt fails and is not retried *)

Lemma execute_first_turn {F : Fernet} (E : env) (cmd name : pystr)
    (retryon : list pystr) (expectedreturn : Z) (s : state) :
  0 < self_retries s ->
  let s0 := set_status (set_attempts name 0) s in
  execute_loop E (Z.to_nat (self_retries s)) cmd name retryon expectedreturn
    None s0 =
  match execute_body E cmd name retryon expectedreturn s0 with
  | Ok r s1 =>
      match snd r with
      | Break => Ok (Some (fst r)) s1
      | Next =>
          execute_loop E (Nat.pred (Z.to_nat (self_retries s))) cmd name
            retryon expectedreturn (Some (fst r)) s1
      end
  | Raise e s1 => Raise e s1
  | OutOfFuel => OutOfFuel
  end.
Proof.
  intros Hretries s0.
  assert (Hc0 : counter name s0 = Some 0)
    by (unfold counter, s0; cbn; apply lookup_insert_eq).
  rewrite (execute_loop_unfold E _ cmd name retryon expectedreturn None s0 0 Hc0).
  replace (0 <? self_retries s0) with true
    by (symmetry; apply Z.ltb_lt; exact Hretries).
  cbn [differs andb].
  destruct (Z.to_nat (self_retries s)) eqn:Hk; [lia|reflexivity].
Qed.

(** C2. What [execute] does when the first attempt fails with a token
    that is not on the allow-list, under a limit of at least one: the
    command has run once, nothing has been slept, the name is on the
    failed list, and the counter of the name is 0, the [break] having
    skipped its increment. *)
Theorem execute_not_retried_counter_zero {F : Fernet} (E : env)
    (cmd name : pystr) (retryon : list pystr) (expectedreturn : Z)
    (mounterr : option pystr) (s : state) :
  0 < self_retries s ->
  attempt_failed (popen E (trace s) cmd) expectedreturn = true ->
  regex_search mounterr_pattern (stderr (popen E (trace s) cmd))
    = Some mounterr ->
  str_in (str_of_optstr mounterr) retryon = false ->
  exists s',
    execute E cmd name retryon expectedreturn s = Ok tt s' /\
    runs (trace s') = runs (trace s) ++ [(cmd, popen E (trace s) cmd)] /\
    sleeps (trace s') = sleeps (trace s) /\
    failed (self_status s') = failed (self_status s) ++ [name] /\
    error (self_status s') = 1 /\
    counter name s' = Some 0.
Proof.
  intros Hretries Hfailed Htoken Hno.
  rewrite execute_unfold, (execute_first_turn E _ _ _ _ s Hretries). cbv zeta.
  set (s0 := set_status (set_attempts name 0) s).
  assert (Hc0 : counter name s0 = Some 0)
    by (unfold counter, s0; cbn; apply lookup_insert_eq).
  pose proof (execute_body_spec E cmd name retryon expectedreturn s0 0 Hc0) as H.
  cbv zeta in H. change (trace s0) with (trace s) in H.
  rewrite Hfailed in H.
  destruct (execute_body E cmd name retryon expectedreturn s0)
    as [[r fl] s1|e s1|]; [| |contradiction].
  - destruct H as (-> & _ & Hlists & Hruns & _ & m & Hm & _ & _ & Hrest).
    rewrite Htoken in Hm. injection Hm as <-. rewrite Hno in Hrest.
    destruct Hrest as (-> & Hc & Hsl). cbn [fst snd].
    replace (differs (Some (returncode (popen E (trace s) cmd))) expectedreturn)
      with true
      by (symmetry; unfold attempt_failed in Hfailed;
          now apply andb_true_iff in Hfailed).
    eexists. split; [reflexivity|].
    destruct Hlists as (_ & _ & Hf & _).
    unfold counter, s0 in *. sproj. rewrite Hf. auto 10.
  - destruct H as (_ & _ & Hnone & _). congruence.
Qed.

Lemma execute_not_retried_counter_zero_witness :
  let E := stub_env proc_denied in
  let s := boot E fileserver_disk 3 5 [] in
  let cmd := str "mount -t cifs //10.0.0.5/docs /mnt/docs" in
  let name := str "fileserver" in
  exists s',
    execute E cmd name (List.map fst retryschema_mount) 0 s = Ok tt s' /\
    runs (trace s') = runs (trace s) ++ [(cmd, popen E (trace s) cmd)] /\
    sleeps (trace s') = sleeps (trace s) /\
    failed (self_status s') = failed (self_status s) ++ [name] /\
    error (self_status s') = 1 /\
    counter name s' = Some 0.
Proof.
  intros E s cmd name.
  apply (execute_not_retried_counter_zero E cmd name
           (List.map fst retryschema_mount) 0 (Some (str "13")) s).
  - cbn. lia.
  - reflexivity.
  - vm_compute. reflexivity.
  - vm_compute. reflexivity.
Defined.

(** C4. What [execute] does when the first attempt fails with a text that
    the pattern does not match, under a limit of at least one: [search]
    returns [None], [.group(1)] raises [AttributeError], and the exception
    leaves [execute] right after the command has run: nothing is logged,
    the name is on neither list and the error flag is as it was. *)
Theorem execute_unmatched_stderr_raises {F : Fernet} (E : env)
    (cmd name : pystr) (retryon : list pystr) (expectedreturn : Z)
    (s : state) :
  0 < self_retries s ->
  attempt_failed (popen E (trace s) cmd) expectedreturn = true ->
  regex_search mounterr_pattern (stderr (popen E (trace s) cmd)) = None ->
  execute E cmd name retryon expectedreturn s =
    Raise AttributeError
      (log (Popen cmd (popen E (trace s) cmd))
         (set_status (set_attempts name 0) s)).
Proof.
  intros Hretries Hfailed Hnone.
  rewrite execute_unfold, (execute_first_turn E _ _ _ _ s Hretries). cbv zeta.
  set (s0 := set_status (set_attempts name 0) s).
  assert (Hc0 : counter name s0 = Some 0)
    by (unfold counter, s0; cbn; apply lookup_insert_eq).
  pose proof (execute_body_spec E cmd name retryon expectedreturn s0 0 Hc0) as H.
  cbv zeta in H. change (trace s0) with (trace s) in H.
  rewrite Hfailed in H.
  destruct (execute_body E cmd name retryon expectedreturn s0)
    as [[r fl] s1|e s1|]; [| |contradiction].
  - destruct H as (_ & _ & _ & _ & _ & m & Hm & _). congruence.
  - now destruct H as (-> & _ & _ & ->).
Qed.

Lemma execute_unmatched_stderr_raises_witness :
  let E := stub_env proc_usage in
  let s := boot E fileserver_disk 3 5 [] in
  let cmd := str "mount -t cifs //10.0.0.5/docs /mnt/docs" in
  let name := str "fileserver" in
  execute E cmd name (List.map fst retryschema_mount) 0 s =
    Raise AttributeError
      (log (Popen cmd (popen E (trace s) cmd))
         (set_status (set_attempts name 0) s)).
Proof.
  intros E s cmd name.
  apply (execute_unmatched_stderr_raises E cmd name
           (List.map fst retryschema_mount) 0 s).
  - cbn. lia.
  - reflexivity.
  - vm_compute. reflexivity.
Defined.

(** ** [mount] *)

Lemma decrypt_cases {F : Fernet} (encrypted : list byte) (s : state) :
  (exists plain, decrypt encrypted s = Ok plain s) \/
  (exists e, decrypt encrypted s = Raise e s /\ not_exit e).
Proof.
  unfold decrypt. munfold.
  destruct (fernet_decrypt (self_key s) encrypted) as [b|];
    [destruct (utf8_decode b)|];
    first [ left; eexists; reflexivity
          | right; eexists; split; [reflexivity|exact Logic.I] ].
Qed.

Lemma getcredentials_rows_cases {F : Fernet} (rows : list row)
    (cred : option credentials) (s : state) :
  (exists v, getcredentials_rows rows cred s = Ok v s /\
             (rows = [] -> v = cred) /\
             (rows <> [] \/ cred <> None -> v <> None)) \/
  (exists e, getcredentials_rows rows cred s = Raise e s /\ not_exit e).
Proof.
  revert cred. induction rows as [|r rows IH]; intros cred.
  - left. exists cred. split; [reflexivity|]. split; [auto|].
    intros [H|H]; [now destruct H|exact H].
  - cbn [getcredentials_rows].
    repeat match goal with
    | |- context [bind (decrypt ?x) ?k ?s] =>
        let v := fresh "v" in
        let Hv := fresh "Hv" in
        destruct (decrypt_cases x s) as [(v & Hv)|(e & Hv & He)];
        [rewrite (bind_ok _ _ _ _ _ Hv)
        |rewrite (bind_raise _ _ _ _ _ Hv); right; eauto]
    end.
    destruct (IH (Some (mkCredentials (row_name r) v v0 v1 v2 v3 v4)))
      as [(w & -> & _ & Hw)|(e & -> & He)]; [left|right]; eauto.
    exists w. split; [reflexivity|]. split; [discriminate|].
    intros _. apply Hw. now right.
Qed.

Lemma filter_name_absent (name : pystr) (rows : list row) :
  name_taken name rows = false ->
  List.filter (fun r => pystr_eqb (row_name r) name) rows = [].
Proof.
  unfold name_taken. induction rows as [|r rows IH]; cbn; [reflexivity|].
  destruct (pystr_eqb (row_name r) name); cbn; [discriminate|exact IH].
Qed.

Lemma filter_name_present (name : pystr) (rows : list row) :
  name_taken name rows = true ->
  List.filter (fun r => pystr_eqb (row_name r) name) rows <> [].
Proof.
  unfold name_taken. induction rows as [|r rows IH]; cbn; [discriminate|].
  destruct (pystr_eqb (row_name r) name); cbn; [discriminate|exact IH].
Qed.

Lemma getcredentials_cases {F : Fernet} (name : pystr) (s : state) :
  (exists v, getcredentials name s = Ok v s /\
             (name_taken name (cifstab s) = false -> v = None) /\
             (name_taken name (cifstab s) = true -> v <> None)) \/
  (exists e, getcredentials name s = Raise e s /\ not_exit e /\
             name_taken name (cifstab s) = true).
Proof.
  unfold getcredentials. rewrite (bind_ok get _ s s s eq_refl).
  destruct (name_taken name (cifstab s)) eqn:Htaken.
  - destruct (getcredentials_rows_cases
                (List.filter (fun r => pystr_eqb (row_name r) name) (cifstab s))
                None s) as [(v & -> & _ & Hv)|(e & -> & He)]; [left|right]; eauto.
    exists v. split; [reflexivity|]. split; [discriminate|].
    intros _. apply Hv. left. intros Hnil.
    apply (filter_name_present _ _ Htaken Hnil).
  - rewrite (filter_name_absent _ _ Htaken). left. exists None.
    split; [reflexivity|]. split; [reflexivity|discriminate].
Qed.


Section Stable.
Context {F : Fernet}.
Variable E : env.
Variable I : state -> Prop.
Hypothesis HI : stable E I.

Lemma keep_syslog (m : pystr) (s : state) : I s -> I (log (Syslog m) s).
Proof. exact (stable_log E I HI s (Syslog m) Logic.I). Qed.

Lemma keep_print (m : pystr) (s : state) : I s -> I (log (Print m) s).
Proof. exact (stable_log E I HI s (Print m) Logic.I). Qed.

Lemma keep_makedirs (d : pystr) (s : state) : I s -> I (log (Makedirs d) s).
Proof. exact (stable_log E I HI s (Makedirs d) Logic.I). Qed.

Lemma same_object_log (e : event) (s : state) : same_object s (log e s).
Proof. now unfold same_object. Qed.

Lemma execute_stable (cmd name : pystr) (retryon : list pystr) (s : state) :
  I s ->
  match execute E cmd name retryon 0 s with
  | OutOfFuel => False
  | Raise e _ => not_exit e
  | Ok _ s' => I s' /\ same_object s s'
  end.
Proof.
  intros Hs.
  pose proof (execute_rule E cmd name retryon 0 I
                (fun s => stable_attempts E I HI s name 0)
                (fun s n => stable_body E I HI s cmd name retryon n)
                (fun s => stable_failed E I HI s name)
                (fun s => stable_success E I HI s name) s Hs) as H.
  destruct (execute E cmd name retryon 0 s) as [[] s'|e s'|]; [| |exact H].
  - now destruct H as (? & ? & _).
  - destruct H as (-> & _). exact Logic.I.
Qed.

Lemma mount_name_stable (u : bool) (name : pystr) (s : state) :
  I s ->
  match mount_name E u name s with
  | OutOfFuel => False
  | Raise e _ => not_exit e
  | Ok _ s' => I s' /\ same_object s s'
  end.
Proof.
  intros Hs. unfold mount_name.
  destruct (getcredentials_cases name s)
    as [(v & Hv & _ & _)|(e & Hv & He & _)];
    [rewrite (bind_ok _ _ _ _ _ Hv)
    |rewrite (bind_raise _ _ _ _ _ Hv); exact He].
  destruct v as [c|].
  - destruct u.
    + rewrite (bind_ok (emit _) _ s tt _ eq_refl).
      pose proof (execute_stable (umount_cmd c) name retryschema_umount
                    (log (Syslog (str "Attempting umount " ++ name)) s)
                    (keep_syslog _ s Hs)) as H.
      destruct (execute E _ _ _ _ _) as [[] s'|e s'|]; [|exact H|exact H].
      destruct H as [? Hobj]. split; [assumption|].
      exact (same_object_trans _ _ _ (same_object_log _ s) Hobj).
    + rewrite (bind_ok (emit _) _ s tt _ eq_refl).
      set (s1 := log (Syslog (str "Attempting mount " ++ name)) s).
      assert (Hs1 : I s1) by exact (keep_syslog _ s Hs).
      rewrite (bind_ok get _ s1 s1 s1 eq_refl).
      destruct (path_exists E (trace s1) (c_mountpoint c)).
      * rewrite (bind_ok (ret tt) _ s1 tt s1 eq_refl).
        pose proof (execute_stable (mount_cmd c) name
                      (List.map fst retryschema_mount) s1 Hs1) as H.
        destruct (execute E _ _ _ _ _) as [[] s'|e s'|]; [|exact H|exact H].
        destruct H as [? Hobj]. split; [assumption|].
        exact (same_object_trans _ _ _ (same_object_log _ s) Hobj).
      * destruct (makedirs E (trace s1) (c_mountpoint c)) as [e|].
        -- exact Logic.I.
        -- rewrite (bind_ok (emit _) _ s1 tt _ eq_refl).
           pose proof (execute_stable (mount_cmd c) name
                         (List.map fst retryschema_mount)
                         (log (Makedirs (c_mountpoint c)) s1)
                         (keep_makedirs _ s1 Hs1)) as H.
           destruct (execute E _ _ _ _ _) as [[] s'|e s'|]; [|exact H|exact H].
           destruct H as [? Hobj]. split; [assumption|].
           exact (same_object_trans _ _ _ (same_object_log _ s)
                    (same_object_trans _ _ _ (same_object_log _ s1) Hobj)).
  - split; [|now unfold same_object].
    apply (stable_not_found E I HI), keep_print, keep_syslog, Hs.
Qed.

Lemma mount_names_stable (u : bool) (mounts : list pystr) :
  forall s, I s ->
    match mount_names E u mounts s with
    | OutOfFuel => False
    | Raise e _ => not_exit e
    | Ok _ s' => I s' /\ same_object s s'
    end.
Proof.
  induction mounts as [|name rest IH]; intros s Hs; cbn [mount_names].
  - split; [assumption|apply same_object_refl].
  - pose proof (mount_name_stable u name s Hs) as H. unfold bind.
    destruct (mount_name E u name s) as [[] s1|e s1|]; [|exact H|exact H].
    destruct H as [Hs1 Hobj]. specialize (IH s1 Hs1).
    destruct (mount_names E u rest s1) as [[] s'|e s'|]; [|exact IH|exact IH].
    destruct IH as [? Hobj']. split; [assumption|].
    exact (same_object_trans _ _ _ Hobj Hobj').
Qed.

Lemma listmounts_rows_stable (rows : list row) :
  forall (acc : list pystr) (s : state), I s ->
    exists s', listmounts_rows rows acc s = Ok (acc ++ List.map row_name rows) s'
               /\ I s' /\ same_object s s'.
Proof.
  induction rows as [|r rows IH]; intros acc s Hs; cbn [listmounts_rows].
  - exists s. cbn. rewrite app_nil_r.
    split; [reflexivity|split; [assumption|apply same_object_refl]].
  - rewrite (bind_ok (emit _) _ s tt _ eq_refl).
    destruct (IH (acc ++ [row_name r]) (log (Print (row_name r)) s)
                 (keep_print _ s Hs)) as (s' & -> & Hs' & Hobj).
    exists s'. cbn. rewrite <- app_assoc.
    split; [reflexivity|split; [assumption|]].
    exact (same_object_trans _ _ _ (same_object_log _ s) Hobj).
Qed.

Lemma mount_stable (args : mountargs) (s : state) :
  I s ->
  match mount E args s with
  | OutOfFuel => False
  | Raise e _ => not_exit e
  | Ok _ s' => I s' /\ same_object s s'
  end.
Proof.
  intros Hs. unfold mount. destruct (m_all args).
  - unfold listmounts. unfold bind at 1 2. unfold get.
    destruct (listmounts_rows_stable (cifstab s) [] s Hs) as (s1 & -> & Hs1 & Hobj).
    pose proof (mount_names_stable (m_u args) ([] ++ List.map row_name (cifstab s))
                  s1 Hs1) as H.
    destruct (mount_names E _ _ s1) as [[] s'|e s'|]; [|exact H|exact H].
    destruct H as [? Hobj']. split; [assumption|].
    exact (same_object_trans _ _ _ Hobj Hobj').
  - rewrite (bind_ok (ret _) _ s _ s eq_refl).
    apply mount_names_stable, Hs.
Qed.

End Stable.

(** *** The error flag *)



Lemma error_set_stable {F : Fernet} (E : env) :
  stable E (fun s => error (self_status s) = 1).
Proof.
  split; try (intros; assumption); try reflexivity.
  intros s cmd name retryon n r s' Hs Hn Hrun.
  pose proof (execute_body_spec E cmd name retryon 0 s n Hn) as H.
  cbv zeta in H. rewrite Hrun in H. destruct r as [rc fl].
  destruct H as (_ & _ & _ & _ & _ & Hrest).
  destruct (attempt_failed _ _).
  - now destruct Hrest as (m & _ & Herr & _).
  - destruct Hrest as (_ & _ & Herr & _). congruence.
Qed.


(** *** De-duplication of the names *)

Lemma str_in_spec (x : pystr) (l : list pystr) : str_in x l = true <-> In x l.
Proof.
  unfold str_in. rewrite bool_decide_eq_true. apply list_elem_of_In.
Qed.

Lemma pystr_eqb_spec (a b : pystr) : pystr_eqb a b = true <-> a = b.
Proof. unfold pystr_eqb. apply bool_decide_eq_true. Qed.





(** *** Every name that is found is recorded once *)





Lemma counts_consistent_stable {F : Fernet} (E : env) :
  stable E counts_consistent.
Proof.
  split; try (intros; assumption).
  - intros s cmd name retryon n r s' Hs Hn Hrun.
    pose proof (execute_body_spec E cmd name retryon 0 s n Hn) as H.
    cbv zeta in H. rewrite Hrun in H. destruct r as [rc fl].
    destruct H as (_ & _ & (Hsu & Hsc & Hf & Hfc) & _).
    unfold counts_consistent in *. now rewrite Hsu, Hsc, Hf, Hfc.
  - intros s name [Hsu Hf]. unfold counts_consistent in *. sproj.
    rewrite length_app. cbn [length]. split; [assumption|lia].
  - intros s name [Hsu Hf]. unfold counts_consistent in *. sproj.
    rewrite length_app. cbn [length]. split; [lia|assumption].
Qed.

(** Over a whole [mount], counts that were the lengths of their lists stay
    so. *)
Lemma mount_keeps_counts {F : Fernet} (E : env) (args : mountargs)
    (s s' : state) :
  counts_consistent s -> mount E args s = Ok tt s' -> counts_consistent s'.
Proof.
  intros Hs Hrun.
  pose proof (mount_stable E _ (counts_consistent_stable E) args s Hs) as H.
  rewrite Hrun in H. apply H.
Qed.


(** *** A name that is not in the table *)




(** *** The exit status *)






(** ** Witnesses and scenarios *)


Lemma execute_records_exactly_once_witness :
  let E := stub_env proc_ok in
  let s := boot E fileserver_disk 3 5 [] in
  let cmd := str "mount -t cifs //10.0.0.5/docs /mnt/docs" in
  let name := str "fileserver" in
  let retryon := List.map fst retryschema_mount in
  exists s',
    execute E cmd name retryon 0 s = Ok tt s' /\
    ((success (self_status s') = success (self_status s) ++ [name] /\
      failed (self_status s') = failed (self_status s))
     \/
     (failed (self_status s') = failed (self_status s) ++ [name] /\
      success (self_status s') = success (self_status s))) /\
    (successcount (self_status s) = Z.of_nat (length (success (self_status s))) ->
     successcount (self_status s') = Z.of_nat (length (success (self_status s')))) /\
    (failedcount (self_status s) = Z.of_nat (length (failed (self_status s))) ->
     failedcount (self_status s') = Z.of_nat (length (failed (self_status s')))).
Proof.
  intros E s cmd name retryon.
  assert (H : exists s', execute E cmd name retryon 0 s = Ok tt s')
    by (eexists; vm_compute; reflexivity).
  destruct H as [s' H]. exists s'. split; [exact H|].
  exact (execute_records_exactly_once E cmd name retryon 0 s s' H).
Defined.

(** The command always exits 0: the flag stays 0 and [fileserver] is on
    the success list after one attempt. *)
Example scenario_mount_succeeds :
  exists f,
    main (stub_env proc_ok) fileserver_disk
      (Mount (mount_names_args ["fileserver"]%string 3)) = Some f /\
    exit_code f = 0 /\ error (final_status f) = 0 /\
    success (final_status f) = [str "fileserver"] /\
    attempts (final_status f) !! str "fileserver" = Some 1.
Proof.
  eexists. split; [vm_compute; reflexivity|].
  cbn [exit_code final_status error success attempts].
  repeat split; vm_compute; reflexivity.
Qed.

(** The command is busy every time: three attempts, each followed by the
    wait, and [fileserver] on the failed list. *)
Example scenario_mount_busy :
  exists f,
    main (stub_env proc_busy) fileserver_disk
      (Mount (mount_names_args ["fileserver"]%string 3)) = Some f /\
    exit_code f = 1 /\
    failed (final_status f) = [str "fileserver"] /\
    attempts (final_status f) !! str "fileserver" = Some 3 /\
    length (commands_run (final_trace f)) = 3%nat /\
    sleeps (final_trace f) = [5; 5; 5].
Proof.
  eexists. split; [vm_compute; reflexivity|].
  cbn [exit_code final_status failed attempts final_trace].
  repeat split; vm_compute; reflexivity.
Qed.

(** The names a, a, b with both entries in the table: one mount command
    for a, then one for b. *)
Example scenario_mount_a_a_b :
  exists f,
    main (stub_env proc_ok) ab_disk
      (Mount (mount_names_args ["a"; "a"; "b"]%string 3)) = Some f /\
    exit_code f = 0 /\
    success (final_status f) = [str "a"; str "b"] /\
    commands_run (final_trace f) =
      [str "mount -t cifs -o username=alice,password=secret,ro //10.0.0.5/a /mnt/a";
       str "mount -t cifs -o username=alice,password=secret,ro //10.0.0.5/b /mnt/b"].
Proof.
  eexists. split; [vm_compute; reflexivity|].
  cbn [exit_code final_status success final_trace].
  repeat split; vm_compute; reflexivity.
Qed.

(** The directory of the cifstab cannot be made: exit code 1 before any
    work. *)
Example scenario_not_root :
  exists f,
    main env_not_root fileserver_disk
      (Mount (mount_names_args ["fileserver"]%string 3)) = Some f /\
    exit_code f = 1 /\ uncaught f = None /\ commands_run (final_trace f) = [].
Proof.
  eexists. split; [vm_compute; reflexivity|].
  repeat split; vm_compute; reflexivity.
Qed.

(** * Further properties *)

(** ** The table: [removemounts], [addmount], [listmounts],
       [getcredentials] *)

Lemma removemounts_ok {F : Fernet} (names : list pystr) :
  forall s,
    removemounts names s =
      Ok tt (set_cifstab
               (List.filter (fun r => negb (str_in (row_name r) names))) s).
Proof.
  induction names as [|n rest IH]; intros s.
  - cbn [removemounts]. unfold ret, set_cifstab. f_equal.
    destruct s as [st re wa ke rows tr]. cbn. f_equal.
    induction rows as [|r rows IHr]; cbn; [reflexivity|].
    now rewrite <- IHr.
  - cbn [removemounts]. rewrite (bind_ok (modify _) _ s tt _ eq_refl), IH.
    unfold set_cifstab. cbn [self_status self_retries self_waitsecs self_key
                              cifstab trace].
    do 2 f_equal.
    induction (cifstab s) as [|r rows IHr]; cbn [List.filter]; [reflexivity|].
    assert (Hr : str_in (row_name r) (n :: rest)
                 = pystr_eqb (row_name r) n || str_in (row_name r) rest).
    { apply eq_true_iff_eq.
      rewrite orb_true_iff, !str_in_spec, pystr_eqb_spec. cbn.
      intuition congruence. }
    rewrite Hr.
    destruct (pystr_eqb (row_name r) n); cbn [negb orb List.filter];
      [exact IHr|].
    destruct (str_in (row_name r) rest); cbn [negb]; now rewrite IHr.
Qed.



Lemma filter_all_true {A} (f : A -> bool) (l : list A) :
  (forall x, In x l -> f x = true) -> List.filter f l = l.
Proof.
  induction l as [|x l IH]; intros H; cbn; [reflexivity|].
  rewrite (H x (or_introl eq_refl)), IH; [reflexivity|].
  intros y Hy. apply H. now right.
Qed.

Lemma name_taken_spec (name : pystr) (rows : list row) :
  name_taken name rows = true <-> In name (List.map row_name rows).
Proof.
  unfold name_taken. rewrite existsb_exists, in_map_iff.
  split; intros (r & H1 & H2).
  - apply pystr_eqb_spec in H2. eauto.
  - exists r. split; [assumption|now apply pystr_eqb_spec].
Qed.









(** The outcomes of [addmount]. *)
Lemma addmount_cases {F : Fernet} (E : env) (args : addargs) (s : state) :
  match addmount E args s with
  | Ok _ s' =>
      self_status s' = self_status s /\ self_key s' = self_key s /\
      ((name_taken (a_name args) (cifstab s) = true /\
        cifstab s' = cifstab s)
       \/
       (name_taken (a_name args) (cifstab s) = false /\
        trace s' = trace s /\
        exists r, row_name r = a_name args /\ cifstab s' = cifstab s ++ [r]))
  | Raise e s' => e = UnicodeEncodeError /\ s' = s
  | OutOfFuel => False
  end.
Proof.
  unfold addmount. rewrite (bind_ok get _ s s s eq_refl).
  repeat match goal with
  | |- context [bind (encrypt ?r ?v) ?k ?s] =>
      let b := fresh "b" in
      let Hb := fresh "Hb" in
      destruct (encrypt_cases r v s) as [(b & _ & Hb)|[_ Hb]];
      [rewrite (bind_ok _ _ _ _ _ Hb)
      |rewrite (bind_raise _ _ _ _ _ Hb); now split]
  end.
  destruct (name_taken (a_name args) (cifstab s)) eqn:Htaken.
  - rewrite (bind_ok (emit _) _ s tt _ eq_refl). unfold listmounts.
    match goal with |- context [bind (bind get ?k) ?k2 ?s1] =>
      unfold bind at 1 2; unfold get end.
    match goal with |- context [listmounts_rows ?rows [] ?s1] =>
      destruct (listmounts_rows_ok rows [] s1)
        as (s' & Hrun & Hc & Hst & _ & _ & Hk & _)
    end.
    rewrite Hrun. cbn [ret].
    split; [exact Hst|]. split; [exact Hk|]. left.
    split; [reflexivity|exact Hc].
  - cbn [modify set_cifstab self_status self_key cifstab trace].
    split; [reflexivity|]. split; [reflexivity|]. right.
    split; [reflexivity|]. split; [reflexivity|].
    eexists. split; [|reflexivity]. reflexivity.
Qed.

Lemma unique_names_app (rows : list row) (r : row) :
  unique_names rows -> name_taken (row_name r) rows = false ->
  unique_names (rows ++ [r]).
Proof.
  unfold unique_names. intros Hu Habs. rewrite List.map_app. cbn.
  apply NoDup_ListNoDup. apply NoDup_app. repeat split.
  - now apply NoDup_ListNoDup.
  - intros x Hx Hx'. apply list_elem_of_In in Hx.
    apply list_elem_of_In in Hx'. destruct Hx' as [<-|[]].
    apply name_taken_spec in Hx. congruence.
  - apply NoDup_ListNoDup. repeat constructor. intros [].
Qed.

(** X4. The primary key is kept: from a table in which no two rows have
    the same name, [addmount], however it ends, and [removemounts] lead to
    such a table. *)
Theorem names_stay_unique {F : Fernet} (E : env) (s : state) :
  unique_names (cifstab s) ->
  (forall args,
     match addmount E args s with
     | Ok _ s' | Raise _ s' => unique_names (cifstab s')
     | OutOfFuel => False
     end) /\
  (forall names s',
     removemounts names s = Ok tt s' -> unique_names (cifstab s')).
Proof.
  intros Hu. split.
  - intros args. pose proof (addmount_cases E args s) as H.
    destruct (addmount E args s) as [[] s'|e s'|]; [| |exact H].
    + destruct H as (_ & _ & [[_ ->]|(Hfresh & _ & r & Hr & ->)]);
        [exact Hu|].
      apply unique_names_app; [exact Hu|now rewrite Hr].
    + destruct H as [_ ->]. exact Hu.
  - intros names s' Hrun. rewrite removemounts_ok in Hrun.
    injection Hrun as <-. cbn [set_cifstab cifstab]. unfold unique_names in *.
    induction (cifstab s) as [|r rows IH]; cbn; [constructor|].
    inversion Hu as [|x l Hx Hl]; subst.
    destruct (negb (str_in (row_name r) names)); cbn; [|now apply IH].
    constructor; [|now apply IH].
    intros Hin. apply Hx. apply in_map_iff in Hin as (r' & Hr' & Hin).
    apply filter_In in Hin as [Hin _]. apply in_map_iff. eauto.
Qed.

Lemma names_stay_unique_witness :
  let E := stub_env proc_ok in
  let s := boot E ab_disk 3 5 [] in
  unique_names (cifstab s) /\
  (forall args,
     match addmount E args s with
     | Ok _ s' | Raise _ s' => unique_names (cifstab s')
     | OutOfFuel => False
     end) /\
  (forall names s',
     removemounts names s = Ok tt s' -> unique_names (cifstab s')).
Proof.
  intros E s.
  assert (H : unique_names (cifstab s)).
  { unfold unique_names. vm_compute. repeat constructor; cbn; intuition discriminate. }
  split; [exact H|]. exact (names_stay_unique E s H).
Defined.

Lemma filter_drop_last_name (rows : list row) (r : row) :
  name_taken (row_name r) rows = false ->
  List.filter (fun x => negb (str_in (row_name x) [row_name r])) (rows ++ [r])
    = rows.
Proof.
  intros Habs. rewrite List.filter_app. cbn [List.filter].
  assert (Hr : str_in (row_name r) [row_name r] = true)
    by (apply str_in_spec; now left).
  rewrite Hr. cbn [negb]. rewrite app_nil_r.
  apply filter_all_true. intros x Hx.
  apply negb_true_iff, not_true_is_false. rewrite str_in_spec.
  intros [Heq|[]].
  assert (name_taken (row_name r) rows = true)
    by (apply name_taken_spec; rewrite Heq; now apply in_map).
  congruence.
Qed.

(** X5. Insert and delete: after an [addmount] that returned for a name
    that was not taken, [removemounts] of that name gives back the table
    as it was before the two calls. *)
Theorem addmount_then_removemounts {F : Fernet} (E : env) (args : addargs)
    (s s1 : state) :
  name_taken (a_name args) (cifstab s) = false ->
  addmount E args s = Ok tt s1 ->
  exists s2,
    removemounts [a_name args] s1 = Ok tt s2 /\
    cifstab s2 = cifstab s /\ self_status s2 = self_status s /\
    trace s2 = trace s.
Proof.
  intros Hfresh Hadd. pose proof (addmount_cases E args s) as H.
  rewrite Hadd in H.
  destruct H as (Hst & _ & [[Ht _]|(_ & Htr & r & Hr & Hc)]); [congruence|].
  eexists. split; [apply removemounts_ok|].
  cbn [set_cifstab cifstab self_status trace].
  rewrite Hc, <- Hr, filter_drop_last_name; [auto|now rewrite Hr].
Qed.

Lemma addmount_then_removemounts_witness :
  let E := stub_env proc_ok in
  let args := share_args "music" in
  let s := boot E fileserver_disk 3 5 [] in
  exists s1 s2,
    addmount E args s = Ok tt s1 /\
    removemounts [a_name args] s1 = Ok tt s2 /\
    cifstab s2 = cifstab s /\ self_status s2 = self_status s /\
    trace s2 = trace s.
Proof.
  intros E args s.
  assert (H1 : name_taken (a_name args) (cifstab s) = false)
    by (vm_compute; reflexivity).
  assert (H2 : exists s1, addmount E args s = Ok tt s1)
    by (eexists; vm_compute; reflexivity).
  destruct H2 as [s1 H2]. exists s1.
  destruct (addmount_then_removemounts E args s s1 H1 H2) as (s2 & H3).
  exists s2. split; [exact H2|exact H3].
Defined.

Lemma decrypt_same_key {F : Fernet} (x : list byte) (s1 s2 : state) :
  self_key s1 = self_key s2 ->
  (exists v, decrypt x s1 = Ok v s1 /\ decrypt x s2 = Ok v s2) \/
  (exists e, decrypt x s1 = Raise e s1 /\ decrypt x s2 = Raise e s2).
Proof.
  intros Hk. unfold decrypt. munfold. rewrite Hk.
  destruct (fernet_decrypt (self_key s2) x) as [b|];
    [destruct (utf8_decode b)|]; eauto.
Qed.

Lemma getcredentials_rows_same_key {F : Fernet} (rows : list row)
    (s1 s2 : state) :
  self_key s1 = self_key s2 ->
  forall cred,
    (exists v, getcredentials_rows rows cred s1 = Ok v s1 /\
               getcredentials_rows rows cred s2 = Ok v s2) \/
    (exists e, getcredentials_rows rows cred s1 = Raise e s1 /\
               getcredentials_rows rows cred s2 = Raise e s2).
Proof.
  intros Hk. induction rows as [|r rows IH]; intros cred.
  - left. exists cred. now split.
  - cbn [getcredentials_rows].
    repeat match goal with
    | |- context [bind (decrypt ?x) _ s1] =>
        let v := fresh "v" in
        let H1 := fresh "H1" in
        let H2 := fresh "H2" in
        destruct (decrypt_same_key x s1 s2 Hk) as [(v & H1 & H2)|(e & H1 & H2)];
        [rewrite (bind_ok _ _ _ _ _ H1), (bind_ok _ _ _ _ _ H2)
        |rewrite (bind_raise _ _ _ _ _ H1), (bind_raise _ _ _ _ _ H2);
         right; eauto]
    end.
    apply IH.
Qed.

(** X6. An [addmount] that returns does not disturb the other entries:
    [getcredentials] of any other name answers after it as it did
    before, with the same dict or the same exception. *)
Theorem addmount_keeps_other_entries {F : Fernet} (E : env) (args : addargs)
    (other : pystr) (s s' : state) :
  other <> a_name args ->
  addmount E args s = Ok tt s' ->
  (exists v, getcredentials other s = Ok v s /\
             getcredentials other s' = Ok v s') \/
  (exists e, getcredentials other s = Raise e s /\
             getcredentials other s' = Raise e s').
Proof.
  intros Hother Hadd. pose proof (addmount_cases E args s) as H.
  rewrite Hadd in H. destruct H as (_ & Hk & Hrows).
  unfold getcredentials.
  rewrite (bind_ok get _ s s s eq_refl), (bind_ok get _ s' s' s' eq_refl).
  assert (Hf : List.filter (fun r => pystr_eqb (row_name r) other) (cifstab s')
               = List.filter (fun r => pystr_eqb (row_name r) other) (cifstab s)).
  { destruct Hrows as [[_ ->]|(_ & _ & r & Hr & ->)]; [reflexivity|].
    rewrite List.filter_app. cbn [List.filter].
    assert (pystr_eqb (row_name r) other = false) as ->.
    { apply not_true_is_false. rewrite pystr_eqb_spec. congruence. }
    apply app_nil_r. }
  rewrite Hf. apply getcredentials_rows_same_key. now symmetry.
Qed.

Lemma addmount_keeps_other_entries_witness :
  let E := stub_env proc_ok in
  let args := share_args "music" in
  let other := str "fileserver" in
  let s := boot E fileserver_disk 3 5 [] in
  exists s',
    addmount E args s = Ok tt s' /\
    ((exists v, getcredentials other s = Ok v s /\
                getcredentials other s' = Ok v s') \/
     (exists e, getcredentials other s = Raise e s /\
                getcredentials other s' = Raise e s')).
Proof.
  intros E args other s.
  assert (H1 : other <> a_name args) by (vm_compute; discriminate).
  assert (H2 : exists s', addmount E args s = Ok tt s')
    by (eexists; vm_compute; reflexivity).
  destruct H2 as [s' H2]. exists s'. split; [exact H2|].
  exact (addmount_keeps_other_entries E args other s s' H1 H2).
Defined.


(** ** The attempts of [execute] *)

Section Attempts.
Context {F : Fernet}.
Variable E : env.
Variables cmd name : pystr.
Variable retryon : list pystr.
Variable expectedreturn : Z.



End Attempts.

Section ExecuteTrace.
Context {F : Fernet}.
Variable E : env.
Variables cmd name : pystr.
Variable retryon : list pystr.
Variable expectedreturn : Z.








(** X13. Under a limit of 0 or less [execute] runs nothing: it returns
    with the name on the failed list, the error flag set, the counter of
    the name at 0 and the trace as it was. *)
Theorem execute_without_retries (s : state) :
  self_retries s <= 0 ->
  exists s',
    execute E cmd name retryon expectedreturn s = Ok tt s' /\
    trace s' = trace s /\
    failed (self_status s') = failed (self_status s) ++ [name] /\
    success (self_status s') = success (self_status s) /\
    error (self_status s') = 1 /\
    messages (self_status s') = messages (self_status s) /\
    counter name s' = Some 0.
Proof.
  intros Hretries. rewrite execute_unfold.
  set (s0 := set_status (set_attempts name 0) s).
  assert (Hc0 : counter name s0 = Some 0)
    by (unfold counter, s0; cbn; apply lookup_insert_eq).
  rewrite (execute_loop_unfold E _ cmd name retryon expectedreturn None s0 0 Hc0).
  replace (0 <? self_retries s0) with false
    by (symmetry; apply Z.ltb_ge; exact Hretries).
  cbn [differs andb]. eexists. split; [reflexivity|].
  unfold counter, s0 in *. sproj. auto 10.
Qed.

End ExecuteTrace.

Lemma execute_without_retries_witness :
  let E := stub_env proc_ok in
  let s := boot E fileserver_disk 0 5 [] in
  let cmd := str "mount -t cifs //10.0.0.5/docs /mnt/docs" in
  let name := str "fileserver" in
  exists s',
    execute E cmd name (List.map fst retryschema_mount) 0 s = Ok tt s' /\
    trace s' = trace s /\
    failed (self_status s') = failed (self_status s) ++ [name] /\
    success (self_status s') = success (self_status s) /\
    error (self_status s') = 1 /\
    messages (self_status s') = messages (self_status s) /\
    counter name s' = Some 0.
Proof.
  intros E s cmd name.
  apply (execute_without_retries E cmd name (List.map fst retryschema_mount)
           0 s).
  cbn. lia.
Defined.

(** ** [getcredentials] and [mount] *)




(** X15. A [mount] that returns has left the table, the key and the two
    settings as they were, has not cleared an error flag that was set,
    and has kept each count at the length of its list. *)
Theorem mount_keeps_the_object {F : Fernet} (E : env) (args : mountargs)
    (s s' : state) :
  mount E args s = Ok tt s' ->
  cifstab s' = cifstab s /\ self_key s' = self_key s /\
  self_retries s' = self_retries s /\ self_waitsecs s' = self_waitsecs s /\
  (error (self_status s) = 1 -> error (self_status s') = 1) /\
  (counts_consistent s -> counts_consistent s').
Proof.
  intros Hrun.
  assert (Hobj : same_object s s').
  { assert (Htriv : stable E (fun _ : state => True)) by (split; auto).
    pose proof (mount_stable E _ Htriv args s Logic.I) as H.
    rewrite Hrun in H. apply H. }
  destruct Hobj as (Hr & Hw & Hk & Hc).
  refine (conj Hc (conj Hk (conj Hr (conj Hw (conj _ _))))).
  - intros Herr.
    pose proof (mount_stable E _ (error_set_stable E) args s Herr) as H.
    rewrite Hrun in H. apply H.
  - intros Hcounts.
    pose proof (mount_stable E _ (counts_consistent_stable E) args s Hcounts)
      as H.
    rewrite Hrun in H. apply H.
Qed.

Lemma mount_keeps_the_object_witness :
  let E := stub_env proc_busy in
  let args := mount_names_args ["ghost"; "fileserver"]%string 2 in
  let s := boot E fileserver_disk 2 5 [] in
  exists s',
    mount E args s = Ok tt s' /\
    cifstab s' = cifstab s /\ self_key s' = self_key s /\
    self_retries s' = self_retries s /\ self_waitsecs s' = self_waitsecs s /\
    (error (self_status s) = 1 -> error (self_status s') = 1) /\
    (counts_consistent s -> counts_consistent s').
Proof.
  intros E args s.
  assert (H : exists s', mount E args s = Ok tt s')
    by (eexists; vm_compute; reflexivity).
  destruct H as [s' H]. exists s'. split; [exact H|].
  exact (mount_keeps_the_object E args s s' H).
Defined.





(** ** The entry point for the commands on the table *)





(** ** The pattern of [execute] *)

(** What a match of the greedy [+] comes from: some length between 1 and
    the longest run for which the rest of the pattern matches. *)
Lemma match_plus_some (cls : N -> bool) (group1 : bool) (p' : list atom)
    (s : pystr) (g : option pystr) (r : option pystr) :
  match_here (Plus cls group1 :: p') s g = Some r ->
  exists k, (1 <= k <= run_length cls s)%nat /\
    match_here p' (drop k s) (if group1 then Some (take k s) else g) = Some r.
Proof.
  cbn [match_here]. generalize (run_length cls s) as n.
  induction n as [|n IH]; [discriminate|].
  destruct (match_here p' (drop (S n) s)
              (if group1 then Some (take (S n) s) else g)) as [r'|] eqn:Hk.
  - intros [= <-]. exists (S n). split; [lia|exact Hk].
  - intros H. destruct (IH H) as (k & Hk1 & Hk2). exists k. split; [lia|exact Hk2].
Qed.

Lemma give_back_none (f : nat -> option (option pystr)) (n : nat) :
  (forall j, (1 <= j <= n)%nat -> f j = None) ->
  (fix give_back (k : nat) : option (option pystr) :=
     match k with
     | O => None
     | S k' => match f k with Some r => Some r | None => give_back k' end
     end) n = None.
Proof.
  induction n as [|n IH]; intros Hnone; [reflexivity|].
  rewrite (Hnone (S n)) by lia. apply IH. intros j Hj. apply Hnone. lia.
Qed.

Lemma give_back_only (f : nat -> option (option pystr)) (n k : nat) :
  (1 <= k <= n)%nat ->
  (forall j, (1 <= j <= n)%nat -> j <> k -> f j = None) ->
  (fix give_back (k : nat) : option (option pystr) :=
     match k with
     | O => None
     | S k' => match f k with Some r => Some r | None => give_back k' end
     end) n = f k.
Proof.
  induction n as [|n IH]; intros Hk Hother; [lia|].
  destruct (Nat.eq_dec k (S n)) as [->|Hne].
  - destruct (f (S n)) as [r|] eqn:Hr; [reflexivity|].
    apply give_back_none. intros j Hj. apply Hother; lia.
  - rewrite (Hother (S n)) by lia. apply IH; [lia|].
    intros j Hj Hjk. apply Hother; [lia|exact Hjk].
Qed.

(** The greedy [+] takes the only length at which the rest matches. *)
Lemma match_plus_only (cls : N -> bool) (group1 : bool) (p' : list atom)
    (s : pystr) (g : option pystr) (k : nat) :
  (1 <= k <= run_length cls s)%nat ->
  (forall j, (1 <= j <= run_length cls s)%nat -> j <> k ->
     match_here p' (drop j s) (if group1 then Some (take j s) else g) = None) ->
  match_here (Plus cls group1 :: p') s g
    = match_here p' (drop k s) (if group1 then Some (take k s) else g).
Proof.
  intros Hk Hother. cbn [match_here].
  apply (give_back_only
           (fun j => match_here p' (drop j s)
                       (if group1 then Some (take j s) else g))
           (run_length cls s) k Hk Hother).
Qed.

(** The greedy [+] fails when the rest matches at no length. *)
Lemma match_plus_none (cls : N -> bool) (group1 : bool) (p' : list atom)
    (s : pystr) (g : option pystr) :
  (forall j, (1 <= j <= run_length cls s)%nat ->
     match_here p' (drop j s) (if group1 then Some (take j s) else g) = None) ->
  match_here (Plus cls group1 :: p') s g = None.
Proof.
  intros Hnone. cbn [match_here].
  apply (give_back_none
           (fun j => match_here p' (drop j s)
                       (if group1 then Some (take j s) else g))
           (run_length cls s) Hnone).
Qed.

Lemma match_no_group (p : list atom) :
  no_group p = true ->
  forall s g r, match_here p s g = Some r -> r = g.
Proof.
  induction p as [|a p IH]; intros Hp s g r H.
  - now injection H as <-.
  - destruct a as [c|cls|cls group1].
    + cbn [match_here] in H. destruct s as [|x s]; [discriminate|].
      destruct (x =? c)%N; [|discriminate]. exact (IH Hp _ _ _ H).
    + cbn [match_here] in H. destruct s as [|x s]; [discriminate|].
      destruct (cls x); [|discriminate]. exact (IH Hp _ _ _ H).
    + destruct group1; [discriminate|].
      apply match_plus_some in H as (k & _ & H). exact (IH Hp _ _ _ H).
Qed.

Lemma run_length_take (cls : N -> bool) (s : pystr) (k : nat) :
  (k <= run_length cls s)%nat ->
  length (take k s) = k /\ Forall (fun c => cls c = true) (take k s).
Proof.
  revert k. induction s as [|x s IH]; intros k Hk; cbn in Hk.
  - assert (k = 0%nat) as -> by lia. now split.
  - destruct k as [|k]; [now split|]. cbn.
    destruct (cls x) eqn:Hx; [|lia].
    destruct (IH k ltac:(lia)) as [Hl Hf]. split; [now rewrite Hl|].
    constructor; assumption.
Qed.

(** A match of a pattern whose one group is a greedy [+] sets the group
    to a piece of the text: at least one character, all of the class. *)
Lemma match_group_piece (p1 : list atom) (cls : N -> bool) (p2 : list atom) :
  no_group p2 = true ->
  forall s g r,
    match_here (p1 ++ Plus cls true :: p2) s g = Some r ->
    exists s0 t s2,
      s = s0 ++ t ++ s2 /\ r = Some t /\ t <> [] /\
      Forall (fun c => cls c = true) t.
Proof.
  intros Hp2. induction p1 as [|a p1 IH]; intros s g r H.
  - cbn [app] in H. apply match_plus_some in H as (k & Hk & H).
    apply (match_no_group p2 Hp2) in H. subst r.
    destruct (run_length_take cls s k ltac:(lia)) as [Hl Hf].
    exists [], (take k s), (drop k s). cbn [app].
    rewrite take_drop. repeat split; auto.
    intros Hnil. rewrite Hnil in Hl. cbn in Hl. lia.
  - cbn [app] in H. destruct a as [c|cls1|cls1 group1].
    + cbn [match_here] in H. destruct s as [|x s]; [discriminate|].
      destruct (x =? c)%N; [|discriminate].
      destruct (IH _ _ _ H) as (s0 & t & s2 & -> & Hr). now exists (x :: s0), t, s2.
    + cbn [match_here] in H. destruct s as [|x s]; [discriminate|].
      destruct (cls1 x); [|discriminate].
      destruct (IH _ _ _ H) as (s0 & t & s2 & -> & Hr). now exists (x :: s0), t, s2.
    + apply match_plus_some in H as (k & _ & H).
      destruct (IH _ _ _ H) as (s0 & t & s2 & Hs & Hr).
      exists (take k s ++ s0), t, s2. split; [|exact Hr].
      rewrite <- app_assoc, <- Hs. now rewrite take_drop.
Qed.

Lemma is_digit_not_newline (c : N) : is_digit c = true -> c <> 10%N.
Proof.
  unfold is_digit. intros [H _]%andb_true_iff. apply N.leb_le in H. lia.
Qed.

Lemma is_dot_not_newline (c : N) : is_dot c = true -> c <> 10%N.
Proof.
  unfold is_dot. intros H%negb_true_iff. now apply N.eqb_neq.
Qed.

Lemma regex_search_nil (alts : list (list atom)) :
  regex_search alts [] =
    match match_alternatives alts [] with Some r => Some r | None => None end.
Proof. reflexivity. Qed.

Lemma regex_search_cons (alts : list (list atom)) (x : N) (s : pystr) :
  regex_search alts (x :: s) =
    match match_alternatives alts (x :: s) with
    | Some r => Some r
    | None => regex_search alts s
    end.
Proof. reflexivity. Qed.

Lemma regex_search_suffix (alts : list (list atom)) (s : pystr)
    (r : option pystr) :
  regex_search alts s = Some r ->
  exists s0 s1, s = s0 ++ s1 /\ match_alternatives alts s1 = Some r.
Proof.
  induction s as [|x s IH];
    [rewrite regex_search_nil|rewrite regex_search_cons].
  - destruct (match_alternatives alts []) as [r'|] eqn:H; [|discriminate].
    intros [= <-]. now exists [], [].
  - destruct (match_alternatives alts (x :: s)) as [r'|] eqn:H.
    + intros [= <-]. now exists [], (x :: s).
    + intros Hs. destruct (IH Hs) as (s0 & s1 & -> & H1).
      now exists (x :: s0), s1.
Qed.

(** X18. The token of a match is never [None]: when the search for the
    pattern of [execute] finds a match, group 1 is set to a piece of the
    text that has at least one character and no line feed. *)
Theorem mounterr_is_a_piece_of_one_line (s : pystr) (r : option pystr) :
  regex_search mounterr_pattern s = Some r ->
  exists s0 t s2,
    s = s0 ++ t ++ s2 /\ r = Some t /\ t <> [] /\
    Forall (fun c => c <> 10%N) t.
Proof.
  intros H. apply regex_search_suffix in H as (s0 & s1 & -> & H).
  unfold mounterr_pattern in H. cbn [match_alternatives] in H.
  assert (Hpiece : exists t1 t s2,
            s1 = t1 ++ t ++ s2 /\ r = Some t /\ t <> [] /\
            Forall (fun c => c <> 10%N) t).
  { match type of H with context [match_here ?p1 s1 None] =>
      destruct (match_here p1 s1 None) as [r1|] eqn:H1 end.
    - injection H as <-.
      apply (match_group_piece (List.map Lit (str "error(")) is_digit
               [Lit 41%N] eq_refl) in H1
        as (t1 & t & s2 & Hs & Hr & Hne & Hall).
      exists t1, t, s2. repeat split; auto.
      eapply Forall_impl; [exact Hall|]. apply is_digit_not_newline.
    - match type of H with context [match_here ?p2 s1 None] =>
        destruct (match_here p2 s1 None) as [r2|] eqn:H2 end; [|discriminate].
      injection H as <-.
      apply (match_group_piece
               [Plus is_dot false; Lit 58%N; Plus is_dot false; Lit 58%N;
                One is_space] is_dot [] eq_refl) in H2
        as (t1 & t & s2 & Hs & Hr & Hne & Hall).
      exists t1, t, s2. repeat split; auto.
      eapply Forall_impl; [exact Hall|]. apply is_dot_not_newline. }
  destruct Hpiece as (t1 & t & s2 & -> & Hr).
  exists (s0 ++ t1), t, s2. split; [now rewrite <- app_assoc|exact Hr].
Qed.

Lemma mounterr_is_a_piece_of_one_line_witness :
  let s := str "umount: /mnt/docs: target is busy." ++ [10%N] in
  let r := Some (str "target is busy.") in
  exists s0 t s2,
    s = s0 ++ t ++ s2 /\ r = Some t /\ t <> [] /\
    Forall (fun c => c <> 10%N) t.
Proof.
  intros s r.
  apply (mounterr_is_a_piece_of_one_line s r).
  vm_compute. reflexivity.
Defined.

Lemma match_lits (p : list atom) :
  forall s g r, match_here p s g = Some r -> sublist (lits p) s.
Proof.
  induction p as [|a p IH]; intros s g r H; [apply sublist_nil_l|].
  destruct a as [c|cls|cls group1]; cbn [lits].
  - cbn [match_here] in H. destruct s as [|x s]; [discriminate|].
    destruct (N.eqb_spec x c) as [->|]; [|discriminate].
    apply sublist_skip. exact (IH _ _ _ H).
  - cbn [match_here] in H. destruct s as [|x s]; [discriminate|].
    destruct (cls x); [|discriminate].
    apply sublist_cons. exact (IH _ _ _ H).
  - apply match_plus_some in H as (k & _ & H).
    etransitivity; [exact (IH _ _ _ H)|apply sublist_drop].
Qed.

Lemma count_char_sublist (c : N) (l s : pystr) :
  sublist l s -> (count_char c l <= count_char c s)%nat.
Proof.
  unfold count_char. induction 1 as [|x l s _ IH|x l s _ IH]; cbn.
  - lia.
  - destruct (c =? x)%N; cbn; lia.
  - destruct (c =? x)%N; cbn; lia.
Qed.

Lemma count_char_app (c : N) (a b : pystr) :
  count_char c (a ++ b) = (count_char c a + count_char c b)%nat.
Proof. unfold count_char. now rewrite List.filter_app, length_app. Qed.

(** An alternative of the pattern cannot match without its literals. *)
Lemma alternatives_need_literals (s1 : pystr) :
  (count_char 58 s1 <= 1)%nat ->
  count_char 40 s1 = 0%nat ->
  match_alternatives mounterr_pattern s1 = None.
Proof.
  intros Hcolon Hparen. unfold mounterr_pattern. cbn [match_alternatives].
  match goal with |- context [match_here ?p1 s1 None] =>
    destruct (match_here p1 s1 None) as [r1|] eqn:H1 end.
  - apply match_lits in H1. apply (count_char_sublist 40) in H1.
    match type of H1 with (?a <= _)%nat =>
      assert (Ha : a = 1%nat) by (vm_compute; reflexivity); rewrite Ha in H1
    end. lia.
  - match goal with |- context [match_here ?p2 s1 None] =>
      destruct (match_here p2 s1 None) as [r2|] eqn:H2 end; [|reflexivity].
    apply match_lits in H2. apply (count_char_sublist 58) in H2.
    match type of H2 with (?a <= _)%nat =>
      assert (Ha : a = 2%nat) by (vm_compute; reflexivity); rewrite Ha in H2
    end. lia.
Qed.

(** X19. Texts that the pattern never matches: a text without an opening
    parenthesis and with one colon at most, the empty text among them,
    gives no match, and [search] returns [None]. *)
Theorem no_match_without_paren_and_colons (s : pystr) :
  count_char 40 s = 0%nat -> (count_char 58 s <= 1)%nat ->
  regex_search mounterr_pattern s = None.
Proof.
  induction s as [|x s IH]; intros Hparen Hcolon.
  - rewrite regex_search_nil.
    now rewrite (alternatives_need_literals [] Hcolon Hparen).
  - rewrite regex_search_cons.
    rewrite (alternatives_need_literals _ Hcolon Hparen).
    change (x :: s) with ([x] ++ s) in Hparen, Hcolon.
    rewrite count_char_app in Hparen, Hcolon. apply IH; lia.
Qed.

Lemma no_match_without_paren_and_colons_witness :
  let s := str "mount: only root can do that" ++ [10%N] in
  regex_search mounterr_pattern s = None.
Proof.
  intros s. apply (no_match_without_paren_and_colons s).
  - vm_compute. reflexivity.
  - vm_compute. lia.
Defined.

Lemma match_lit_prefix (w : pystr) (p : list atom) (s : pystr)
    (g : option pystr) :
  match_here (List.map Lit w ++ p) (w ++ s) g = match_here p s g.
Proof.
  induction w as [|c w IH]; [reflexivity|].
  cbn [List.map app match_here]. now rewrite N.eqb_refl.
Qed.

Lemma match_lit_prefix_inv (w : pystr) (p : list atom) :
  forall s g r,
    match_here (List.map Lit w ++ p) s g = Some r -> exists s', s = w ++ s'.
Proof.
  induction w as [|c w IH]; intros s g r H; [now exists s|].
  cbn [List.map app match_here] in H. destruct s as [|x s]; [discriminate|].
  destruct (N.eqb_spec x c) as [->|]; [|discriminate].
  destruct (IH _ _ _ H) as [s' ->]. now exists s'.
Qed.

Lemma count_char_zero (c : N) (s : pystr) :
  count_char c s = 0%nat -> ~ In c s.
Proof.
  unfold count_char. induction s as [|x s IH]; cbn; [tauto|].
  destruct (N.eqb_spec c x) as [->|Hne]; cbn; [discriminate|].
  intros H [Heq|Hin]; [congruence|]. now apply IH.
Qed.

Lemma give_back_first (f : nat -> option (option pystr)) (n : nat)
    (r : option pystr) :
  (1 <= n)%nat -> f n = Some r ->
  (fix give_back (k : nat) : option (option pystr) :=
     match k with
     | O => None
     | S k' => match f k with Some r => Some r | None => give_back k' end
     end) n = Some r.
Proof. intros Hn Hf. destruct n as [|n]; [lia|]. now rewrite Hf. Qed.

(** The greedy [+] keeps its longest run when the rest matches there. *)
Lemma match_plus_longest (cls : N -> bool) (group1 : bool) (p' : list atom)
    (s : pystr) (g r : option pystr) :
  (1 <= run_length cls s)%nat ->
  match_here p' (drop (run_length cls s) s)
    (if group1 then Some (take (run_length cls s) s) else g) = Some r ->
  match_here (Plus cls group1 :: p') s g = Some r.
Proof.
  intros Hn Hr. cbn [match_here].
  apply (give_back_first
           (fun j => match_here p' (drop j s)
                       (if group1 then Some (take j s) else g))
           (run_length cls s) r Hn Hr).
Qed.

Lemma run_length_app (cls : N -> bool) (a b : pystr) :
  Forall (fun c => cls c = true) a ->
  match b with [] => True | x :: _ => cls x = false end ->
  run_length cls (a ++ b) = length a.
Proof.
  intros Ha Hb. induction Ha as [|x a Hx _ IH]; cbn.
  - destruct b as [|y b]; [reflexivity|]. cbn. now rewrite Hb.
  - now rewrite Hx, IH.
Qed.

Section ErrorCode.
Variables pre ds rest : pystr.
Hypothesis Hds : ds <> [].
Hypothesis Hdigits : Forall (fun c => is_digit c = true) ds.

Lemma error_code_here (g : option pystr) :
  match_here (List.map Lit (str "error(") ++ [Plus is_digit true; Lit 41%N])
    (str "error(" ++ ds ++ 41%N :: rest) g = Some (Some ds).
Proof.
  rewrite match_lit_prefix.
  assert (Hrun : run_length is_digit (ds ++ 41%N :: rest) = length ds)
    by (apply run_length_app; [exact Hdigits|reflexivity]).
  apply match_plus_longest; rewrite Hrun.
  - destruct ds; [contradiction|cbn; lia].
  - rewrite drop_app_length, take_app_length. cbn [app match_here].
    now rewrite N.eqb_refl.
Qed.

Lemma error_code_not_before (c : N) (pre' : pystr) (g : option pystr) :
  count_char 40 (c :: pre') = 0%nat ->
  match_here (List.map Lit (str "error(") ++ [Plus is_digit true; Lit 41%N])
    ((c :: pre') ++ str "error(" ++ ds ++ 41%N :: rest) g = None.
Proof.
  intros Hparen. apply count_char_zero in Hparen.
  destruct (match_here _ _ g) as [r|] eqn:H; [exfalso|reflexivity].
  apply match_lit_prefix_inv in H as [s' H].
  change (str "error(") with [101; 114; 114; 111; 114; 40]%N in H.
  destruct pre' as [|c1 [|c2 [|c3 [|c4 [|c5 pre']]]]]; cbn [app] in H;
    try discriminate H.
  injection H as _ _ _ _ _ H5 _. apply Hparen. subst c5. cbn. tauto.
Qed.

Lemma error_code_found :
  count_char 40 pre = 0%nat ->
  (count_char 58 (pre ++ str "error(" ++ ds ++ 41%N :: rest) <= 1)%nat ->
  regex_search mounterr_pattern (pre ++ str "error(" ++ ds ++ 41%N :: rest)
    = Some (Some ds).
Proof.
  induction pre as [|c pre' IH]; intros Hparen Hcolon.
  - cbn [app].
    change (str "error(") with [101; 114; 114; 111; 114; 40]%N.
    cbn [app]. rewrite regex_search_cons.
    change (101 :: 114 :: 114 :: 111 :: 114 :: 40 :: ds ++ 41 :: rest)%N
      with (str "error(" ++ ds ++ 41%N :: rest).
    unfold mounterr_pattern. cbn [match_alternatives].
    now rewrite error_code_here.
  - cbn [app]. rewrite regex_search_cons.
    unfold mounterr_pattern at 1. cbn [match_alternatives].
    change (c :: pre' ++ str "error(" ++ ds ++ 41%N :: rest)
      with ((c :: pre') ++ str "error(" ++ ds ++ 41%N :: rest).
    rewrite (error_code_not_before c pre' None Hparen).
    match goal with |- context [match_here ?p2 ?s1 None] =>
      destruct (match_here p2 s1 None) as [r2|] eqn:H2 end.
    + apply match_lits in H2. apply (count_char_sublist 58) in H2.
      match type of H2 with (?a <= _)%nat =>
        assert (Ha : a = 2%nat) by (vm_compute; reflexivity); rewrite Ha in H2
      end. lia.
    + change (c :: pre') with ([c] ++ pre') in Hparen, Hcolon.
      rewrite <- app_assoc in Hcolon.
      rewrite count_char_app in Hparen, Hcolon. apply IH; lia.
Qed.

End ErrorCode.

(** X20. The code of a mount error is found: in a text that has
    [error(], one digit or more and [)] after a part without an opening
    parenthesis, and one colon at most in all, the search finds these
    digits as the token; what mount.cifs writes for a busy device,
    [mount error(16): Device or resource busy], gives [16]. *)
Theorem error_code_is_the_token (pre ds rest : pystr) :
  ds <> [] ->
  Forall (fun c => is_digit c = true) ds ->
  count_char 40 pre = 0%nat ->
  (count_char 58 (pre ++ str "error(" ++ ds ++ 41%N :: rest) <= 1)%nat ->
  regex_search mounterr_pattern (pre ++ str "error(" ++ ds ++ 41%N :: rest)
    = Some (Some ds).
Proof. exact (error_code_found pre ds rest). Qed.

Lemma error_code_is_the_token_witness :
  let pre := str "mount " in
  let ds := str "16" in
  let rest := str ": Device or resource busy" ++ [10%N]
              ++ str "Refer to the mount.cifs(8) manual page" ++ [10%N] in
  regex_search mounterr_pattern
    (pre ++ str "error(" ++ ds ++ 41%N :: rest) = Some (Some ds).
Proof.
  intros pre ds rest.
  apply (error_code_is_the_token pre ds rest).
  - vm_compute. discriminate.
  - vm_compute. repeat constructor.
  - vm_compute. reflexivity.
  - vm_compute. lia.
Defined.

Lemma match_lit_here (c : N) (p : list atom) (s : pystr) (g : option pystr) :
  match_here (Lit c :: p) (c :: s) g = match_here p s g.
Proof. cbn [match_here]. now rewrite N.eqb_refl. Qed.

Lemma match_lit_lookup (c : N) (p : list atom) (s : list N) (j : nat)
    (g : option pystr) :
  s !! j <> Some c -> match_here (Lit c :: p) (drop j s) g = None.
Proof.
  intros Hj. destruct (drop j s) as [|x t] eqn:E; [reflexivity|].
  cbn [match_here]. destruct (N.eqb_spec x c) as [->|]; [|reflexivity].
  exfalso. apply Hj. rewrite <- (Nat.add_0_r j), <- lookup_drop, E.
  reflexivity.
Qed.

Lemma lookup_line (c : N) (line rest : list N) (j : nat) :
  Forall (fun x => x <> c) line ->
  match rest with [] => True | x :: _ => x <> c end ->
  (j <= length line)%nat -> (line ++ rest) !! j <> Some c.
Proof.
  intros Hline Hrest Hj. destruct (decide (j < length line)%nat) as [Hlt|Hge].
  - rewrite lookup_app_l by exact Hlt. intros H.
    exact (proj1 (Forall_lookup _ _) Hline j c H eq_refl).
  - rewrite lookup_app_r by lia.
    replace (j - length line)%nat with 0%nat by lia.
    destruct rest as [|x rest]; cbn; congruence.
Qed.

Lemma run_length_ge_app (cls : N -> bool) (u t : pystr) :
  Forall (fun c => cls c = true) u ->
  (length u <= run_length cls (u ++ t))%nat.
Proof.
  induction 1 as [|x u Hx _ IH]; cbn; [lia|]. rewrite Hx. lia.
Qed.

(** A [+] followed by a literal that the text has in one place only. *)
Lemma plus_then_lit (cls : N -> bool) (c : N) (p' : list atom)
    (u t : pystr) (g : option pystr) :
  u <> [] -> Forall (fun x => cls x = true) u ->
  (forall j, (1 <= j <= run_length cls (u ++ c :: t))%nat -> j <> length u ->
     match_here (Lit c :: p') (drop j (u ++ c :: t)) g = None) ->
  match_here (Plus cls false :: Lit c :: p') (u ++ c :: t) g
    = match_here p' t g.
Proof.
  intros Hu Hcls Hother.
  rewrite (match_plus_only cls false (Lit c :: p') (u ++ c :: t) g (length u)).
  - rewrite drop_app_length. cbn [match_here]. now rewrite N.eqb_refl.
  - split; [destruct u; [contradiction|cbn; lia]|].
    now apply run_length_ge_app.
  - exact Hother.
Qed.

Section UmountLine.
Variables a b msg rest : pystr.
Hypothesis Ha : a <> [].
Hypothesis Hb : b <> [].
Hypothesis Hmsg : msg <> [].
Hypothesis Hpa : Forall plain a.
Hypothesis Hpb : Forall (fun c => c <> 10%N /\ c <> 58%N) b.
Hypothesis Hpmsg : Forall (fun c => c <> 10%N /\ c <> 58%N) msg.
Hypothesis Hrest : match rest with [] => True | x :: _ => x = 10%N end.

Lemma dots_of_line (l : pystr) :
  Forall (fun c => c <> 10%N /\ c <> 58%N) l ->
  Forall (fun c => is_dot c = true) l /\ Forall (fun c => c <> 58%N) l.
Proof.
  intros Hl. split; eapply Forall_impl; try exact Hl; cbn; intros c [H1 H2].
  - unfold is_dot. now destruct (N.eqb_spec c 10).
  - exact H2.
Qed.

Lemma rest_stops (c : N) :
  c <> 10%N -> match rest with [] => True | x :: _ => x <> c end.
Proof. destruct rest as [|x r]; [trivial|]. intros Hc. now subst x. Qed.

Lemma rest_not_dot :
  match rest with [] => True | x :: _ => is_dot x = false end.
Proof. destruct rest as [|x r]; [trivial|]. now subst x. Qed.

Lemma message_group (g : option pystr) :
  match_here [Plus is_dot true] (msg ++ rest) g = Some (Some msg).
Proof.
  destruct (dots_of_line msg Hpmsg) as [Hdots _].
  assert (Hrun : run_length is_dot (msg ++ rest) = length msg)
    by (apply run_length_app; [exact Hdots|exact rest_not_dot]).
  apply match_plus_longest; rewrite Hrun.
  - destruct msg; [contradiction|cbn; lia].
  - now rewrite drop_app_length, take_app_length.
Qed.

Lemma after_colons_run :
  run_length is_dot (32%N :: msg ++ rest) = S (length msg).
Proof.
  change (32%N :: msg ++ rest) with ((32%N :: msg) ++ rest).
  rewrite run_length_app; [reflexivity| |exact rest_not_dot].
  constructor; [reflexivity|]. exact (proj1 (dots_of_line msg Hpmsg)).
Qed.

Lemma after_colons_no_colon (j : nat) :
  (j <= S (length msg))%nat -> (32%N :: msg ++ rest) !! j <> Some 58%N.
Proof.
  intros Hj. change (32%N :: msg ++ rest) with ((32%N :: msg) ++ rest).
  apply lookup_line; [|apply rest_stops; discriminate|exact Hj].
  constructor; [discriminate|]. exact (proj2 (dots_of_line msg Hpmsg)).
Qed.

(** After the second colon there is no third one to match. *)
Lemma after_colons_fails (p : list atom) (g : option pystr) :
  match_here (Plus is_dot false :: Lit 58%N :: p) (32%N :: msg ++ rest) g
    = None.
Proof.
  apply match_plus_none. intros j Hj. rewrite after_colons_run in Hj.
  apply match_lit_lookup. apply after_colons_no_colon. lia.
Qed.

Lemma second_part_run :
  run_length is_dot (b ++ 58%N :: 32%N :: msg ++ rest)
    = (length b + S (S (length msg)))%nat.
Proof.
  change (b ++ 58%N :: 32%N :: msg ++ rest)
    with (b ++ [58%N; 32%N] ++ msg ++ rest).
  rewrite 2 app_assoc.
  rewrite run_length_app; [|..|exact rest_not_dot].
  - rewrite 2 length_app. cbn. lia.
  - apply Forall_app. split; [apply Forall_app; split|].
    + exact (proj1 (dots_of_line b Hpb)).
    + repeat constructor.
    + exact (proj1 (dots_of_line msg Hpmsg)).
Qed.

Lemma second_part_colon (j : nat) :
  (j <= length b + S (S (length msg)))%nat -> j <> length b ->
  (b ++ 58%N :: 32%N :: msg ++ rest) !! j <> Some 58%N.
Proof.
  intros Hj Hne. destruct (decide (j < length b)%nat) as [Hlt|Hge].
  - rewrite lookup_app_l by exact Hlt. intros H.
    exact (proj1 (Forall_lookup _ _) (proj2 (dots_of_line b Hpb)) j _ H eq_refl).
  - rewrite lookup_app_r by lia.
    destruct (j - length b)%nat as [|i] eqn:E; [lia|].
    cbn [lookup list_lookup]. apply after_colons_no_colon. lia.
Qed.

Lemma second_part_matches (g : option pystr) :
  match_here [Plus is_dot false; Lit 58%N; One is_space; Plus is_dot true]
    (b ++ 58%N :: 32%N :: msg ++ rest) g = Some (Some msg).
Proof.
  rewrite plus_then_lit.
  - cbn [match_here]. change (is_space 32) with true. cbv iota.
    exact (message_group g).
  - exact Hb.
  - exact (proj1 (dots_of_line b Hpb)).
  - intros j Hj Hne. rewrite second_part_run in Hj.
    apply match_lit_lookup. apply second_part_colon; [lia|exact Hne].
Qed.

Lemma line_run :
  run_length is_dot (a ++ 58%N :: b ++ 58%N :: 32%N :: msg ++ rest)
    = (length a + S (length b + S (S (length msg))))%nat.
Proof.
  change (a ++ 58%N :: b ++ 58%N :: 32%N :: msg ++ rest)
    with (a ++ [58%N] ++ b ++ [58%N; 32%N] ++ msg ++ rest).
  rewrite 4 app_assoc.
  rewrite run_length_app; [|..|exact rest_not_dot].
  - rewrite 4 length_app. cbn. lia.
  - repeat (apply Forall_app; split).
    + eapply Forall_impl; [exact Hpa|]. intros c (H1 & _ & _). unfold is_dot.
      now destruct (N.eqb_spec c 10).
    + repeat constructor.
    + exact (proj1 (dots_of_line b Hpb)).
    + repeat constructor.
    + exact (proj1 (dots_of_line msg Hpmsg)).
Qed.

Lemma line_matches :
  match_here
    [Plus is_dot false; Lit 58%N; Plus is_dot false; Lit 58%N;
     One is_space; Plus is_dot true]
    (a ++ 58%N :: b ++ 58%N :: 32%N :: msg ++ rest) None = Some (Some msg).
Proof.
  assert (Hda : Forall (fun c => is_dot c = true) a).
  { eapply Forall_impl; [exact Hpa|]. intros c (H1 & _ & _). unfold is_dot.
    now destruct (N.eqb_spec c 10). }
  rewrite plus_then_lit.
  - apply second_part_matches.
  - exact Ha.
  - exact Hda.
  - intros j Hj Hne. rewrite line_run in Hj.
    destruct (decide (j < length a)%nat) as [Hlt|Hge].
    + apply match_lit_lookup. rewrite lookup_app_l by exact Hlt.
      intros H.
      assert (Hc : Forall (fun c => c <> 58%N) a)
        by (eapply Forall_impl; [exact Hpa|]; now intros c (_ & H2 & _)).
      exact (proj1 (Forall_lookup _ _) Hc j _ H eq_refl).
    + destruct (decide (j = length a + S (length b))%nat) as [->|Hj2].
      * rewrite drop_app_add. cbn [drop].
        rewrite drop_app_length, match_lit_here.
        apply after_colons_fails.
      * apply match_lit_lookup. rewrite lookup_app_r by lia.
        destruct (j - length a)%nat as [|i] eqn:E; [lia|].
        cbn [lookup list_lookup]. apply second_part_colon; lia.
Qed.

Lemma line_no_code (t : pystr) (g : option pystr) :
  match_here (List.map Lit (str "error(") ++ [Plus is_digit true; Lit 41%N])
    (a ++ 58%N :: t) g = None.
Proof.
  destruct (match_here _ (a ++ 58%N :: t) g) as [r|] eqn:H;
    [exfalso|reflexivity].
  apply match_lit_prefix_inv in H as [s' H].
  change (str "error(") with [101; 114; 114; 111; 114; 40]%N in H.
  destruct a as [|c0 [|c1 [|c2 [|c3 [|c4 [|c5 a']]]]]]; cbn [app] in H;
    try discriminate H.
  injection H as _ _ _ _ _ H5 _. subst c5.
  assert (Hin : plain 40%N).
  { apply (proj1 (List.Forall_forall _ _) Hpa). cbn. tauto. }
  destruct Hin as (_ & _ & Hin). congruence.
Qed.

Lemma umount_message_found :
  regex_search mounterr_pattern
    (a ++ [58%N] ++ b ++ [58%N; 32%N] ++ msg ++ rest) = Some (Some msg).
Proof.
  change (a ++ [58%N] ++ b ++ [58%N; 32%N] ++ msg ++ rest)
    with (a ++ 58%N :: b ++ 58%N :: 32%N :: msg ++ rest).
  assert (H : match_alternatives mounterr_pattern
                (a ++ 58%N :: b ++ 58%N :: 32%N :: msg ++ rest)
              = Some (Some msg)).
  { unfold mounterr_pattern. cbn [match_alternatives].
    rewrite (line_no_code _ None). now rewrite line_matches. }
  destruct (a ++ 58%N :: b ++ 58%N :: 32%N :: msg ++ rest) as [|x t] eqn:Hx.
  - destruct a; discriminate Hx.
  - rewrite regex_search_cons. now rewrite H.
Qed.

End UmountLine.

(** X21. The message of umount is found: in a text that starts with a
    line [a:b: msg], the three parts not empty and without a colon or a
    line feed, [a] also without an opening parenthesis, and the text
    ending there or going on with a line feed, the search finds [msg] as
    the token; [umount: /mnt/docs: target is busy.] gives
    [target is busy.]. *)
Theorem umount_message_is_the_token (a b msg rest : pystr) :
  a <> [] -> b <> [] -> msg <> [] ->
  Forall plain a ->
  Forall (fun c => c <> 10%N /\ c <> 58%N) b ->
  Forall (fun c => c <> 10%N /\ c <> 58%N) msg ->
  match rest with [] => True | x :: _ => x = 10%N end ->
  regex_search mounterr_pattern
    (a ++ [58%N] ++ b ++ [58%N; 32%N] ++ msg ++ rest) = Some (Some msg).
Proof. exact (umount_message_found a b msg rest). Qed.

Lemma umount_message_is_the_token_witness :
  let a := str "umount" in
  let b := str " /mnt/fileserver" in
  let msg := str "target is busy." in
  let rest := [10%N] in
  regex_search mounterr_pattern
    (a ++ [58%N] ++ b ++ [58%N; 32%N] ++ msg ++ rest) = Some (Some msg).
Proof.
  intros a b msg rest.
  apply (umount_message_is_the_token a b msg rest).
  - vm_compute. discriminate.
  - vm_compute. discriminate.
  - vm_compute. discriminate.
  - vm_compute. repeat constructor; discriminate.
  - vm_compute. repeat constructor; discriminate.
  - vm_compute. repeat constructor; discriminate.
  - reflexivity.
Defined.

(** ** Values that UTF-8 cannot encode *)

Lemma utf8_encode_surrogate (c : N) (v : pystr) :
  In c v -> is_surrogate c = true -> utf8_encode v = None.
Proof.
  intros Hin Hc. induction v as [|x v IH]; [destruct Hin|].
  cbn [utf8_encode]. destruct Hin as [->|Hin].
  - assert (Hcp : utf8_encode_cp c = None).
    { unfold utf8_encode_cp. rewrite Hc. unfold is_surrogate in Hc.
      apply andb_true_iff in Hc as [H1 H2].
      apply N.leb_le in H1. apply N.leb_le in H2.
      destruct (N.ltb_spec c 0x80); [lia|].
      destruct (N.ltb_spec c 0x800); [lia|].
      destruct (N.ltb_spec c 0x10000); [reflexivity|lia]. }
    now rewrite Hcp.
  - rewrite (IH Hin). now destruct (utf8_encode_cp x).
Qed.

Lemma addmount_unencodable {F : Fernet} (E : env) (args : addargs)
    (s : state) (v : pystr) :
  In v (field_values args (getpass E (trace s))) ->
  utf8_encode v = None ->
  addmount E args s = Raise UnicodeEncodeError s.
Proof.
  intros Hin Hv. unfold addmount. rewrite (bind_ok get _ s s s eq_refl).
  repeat match goal with
  | |- context [bind (encrypt ?r ?w) ?k ?s] =>
      let b := fresh "b" in
      let Hw := fresh "Hw" in
      let Hb := fresh "Hb" in
      destruct (encrypt_cases r w s) as [(b & Hw & Hb)|[_ Hb]];
      [rewrite (bind_ok _ _ _ _ _ Hb)
      |rewrite (bind_raise _ _ _ _ _ Hb); reflexivity]
  end.
  exfalso. unfold field_values in Hin. cbn [In] in Hin.
  repeat destruct Hin as [<-|Hin]; congruence.
Qed.

(** X22. A lone surrogate (what Python makes of a byte of the command
    line that it cannot decode) in an address, share, mount point, option,
    user or password: [addmount] raises [UnicodeEncodeError] before it
    writes, whether the name is new or taken; the table, the status and
    the trace are as they were. *)
Theorem addmount_refuses_surrogates {F : Fernet} (E : env) (args : addargs)
    (s : state) (v : pystr) (c : N) :
  In v (field_values args (getpass E (trace s))) ->
  In c v -> is_surrogate c = true ->
  addmount E args s = Raise UnicodeEncodeError s.
Proof.
  intros Hv Hc Hsur.
  exact (addmount_unencodable E args s v Hv (utf8_encode_surrogate c v Hc Hsur)).
Qed.

Lemma addmount_refuses_surrogates_witness :
  let E := stub_env proc_ok in
  let args := {| a_name := str "music"; a_sharename := str "music";
                 a_ipaddress := str "10.0.0.5";
                 a_mountpoint := str "/mnt/music";
                 a_user := str "ren" ++ [0xDCE9%N]; a_options := str "ro" |} in
  let s := boot E fileserver_disk 3 5 [] in
  addmount E args s = Raise UnicodeEncodeError s.
Proof.
  intros E args s.
  assert (H1 : In (a_user args) (field_values args (getpass E (trace s))))
    by (cbn; tauto).
  assert (H2 : In 0xDCE9%N (a_user args))
    by (apply in_or_app; right; left; reflexivity).
  assert (H3 : is_surrogate 0xDCE9 = true) by (vm_compute; reflexivity).
  exact (addmount_refuses_surrogates E args s (a_user args) 0xDCE9%N H1 H2 H3).
Defined.
